(** * gopherbadgeimg: image to 1-bit-per-pixel badge bitmap

    A shallow embedding of [cmd/gopherbadgeimg/main.go] and the properties
    of its bit packer, its preview printer, its ratio parser and the control
    flow of [main].

    Conventions of the embedding.
    - Go's [int] is the 64-bit two's-complement integer: values are [Z],
      every arithmetic result goes through [wrap_int]; [/] and [%] are
      truncating ([Z.quot], [Z.rem]).
    - [byte] values are [Z] in [0, 256); [uint32] values are [Z] in
      [0, 2^32).
    - A run of Go code is a pair of the trace of observable effects and an
      outcome: normal return, run-time panic, or [os.Exit].
    - Packages outside the repository whose result cannot be read off the
      source (image decoding, resampling, dithering, base64, the flag
      package's help text, the file system) are Section variables. *)

From Stdlib Require Import ZArith List Bool Lia String Ascii.
Import ListNotations.

Local Open Scope Z_scope.

(* ================================================================= *)
(** ** Go integers *)

Module GoInt.

Definition MaxInt : Z := 2 ^ 63 - 1.
Definition MinInt : Z := - 2 ^ 63.

(** Two's-complement wrap-around of [int]. *)
Definition wrap_int (z : Z) : Z := (z + 2 ^ 63) mod 2 ^ 64 - 2 ^ 63.

Definition add (a b : Z) : Z := wrap_int (a + b).
Definition sub (a b : Z) : Z := wrap_int (a - b).
Definition mul (a b : Z) : Z := wrap_int (a * b).
(** [a / b] and [a % b] for a non-zero constant divisor. *)
Definition div (a b : Z) : Z := wrap_int (Z.quot a b).
Definition rem (a b : Z) : Z := Z.rem a b.

(** The conversion [uint(v)]. *)
Definition to_uint (v : Z) : Z := v mod 2 ^ 64.

(** [r + g + b] on [uint32]. *)
Definition add32 (a b : Z) : Z := (a + b) mod 2 ^ 32.

(** [1 << s] at type [byte], for an unsigned shift count [s]. *)
Definition byte_shl1 (s : Z) : Z := Z.shiftl 1 s mod 256.
Definition byte_or (a b : Z) : Z := Z.lor a b.
Definition byte_and (a b : Z) : Z := Z.land a b.

Definition in_int (z : Z) : Prop := MinInt <= z <= MaxInt.

End GoInt.
Import GoInt.

(* ================================================================= *)
(** ** Outcomes, traces and the monad of a run *)

(** Go's [error] values that the program builds. *)
Inductive error : Type :=
| ErrNew (msg : string)                 (* errors.New *)
| ErrJoin (e1 e2 : error)               (* errors.Join *)
| ErrSyntax (fn : string) (arg : string)(* strconv.ErrSyntax *)
| ErrRange (fn : string) (arg : string) (* strconv.ErrRange *)
| ErrOS (msg : string).                 (* an error of the os or image package *)

(** Observable effects of a run, in program order. *)
Inductive event : Type :=
| EvLog (msg : string)                  (* log.Printf, log.Println, log.Fatalf *)
| EvLogErr (prefix : string) (e : error) (* a log line: [prefix], then the text of [e] *)
| EvStderr (s : string)                 (* fmt.Fprint to os.Stderr or the flag output *)
| EvPrintDefaults                       (* flag.PrintDefaults () *)
| EvStdout (s : string)                 (* fmt.Println *)
| EvCreate (name : string)              (* os.Create *)
| EvWrite (name : string) (data : list Z) (* the Write method of os.File *)
| EvClose (name : string)               (* deferred outf.Close () *)
| EvImgToBytes (x y : Z).               (* entry of ImgToBytes *)

Inductive outcome (A : Type) : Type :=
| Ret (a : A)
| Panic
| Exit (code : Z).
Arguments Ret {A} a.
Arguments Panic {A}.
Arguments Exit {A} code.

Definition M (A : Type) : Type := (list event * outcome A)%type.

Definition ret {A} (a : A) : M A := ([], Ret a).
Definition panic {A} : M A := ([], Panic).
Definition os_Exit {A} (code : Z) : M A := ([], Exit code).
Definition emit (e : event) : M unit := ([e], Ret tt).

Definition bind {A B} (m : M A) (k : A -> M B) : M B :=
  match m with
  | (t, Ret a) => let '(t', o) := k a in (t ++ t', o)
  | (t, Panic) => (t, Panic)
  | (t, Exit c) => (t, Exit c)
  end.

Declare Scope go_scope.
Delimit Scope go_scope with go.
Notation "x <- m ;; k" := (bind m (fun x => k))
  (at level 61, m at next level, right associativity) : go_scope.
Notation "' pat <- m ;; k" := (bind m (fun x => match x with pat => k end))
  (at level 61, pat pattern, m at next level, right associativity) : go_scope.
Notation "m ;; k" := (bind m (fun _ => k))
  (at level 61, right associativity) : go_scope.
Local Open Scope go_scope.

(** [log.Fatalf]: the message, then [os.Exit(1)]. *)
Definition log_Fatalf {A} (msg : string) : M A := emit (EvLog msg) ;; os_Exit 1.

(** The process exit status of a run of [main]: 0 on return, 2 on an
    unrecovered panic, the argument of [os.Exit] otherwise. *)
Definition exit_status {A} (m : M A) : Z :=
  match snd m with
  | Ret _ => 0
  | Panic => 2
  | Exit c => c
  end.

Definition trace {A} (m : M A) : list event := fst m.

(* ================================================================= *)
(** ** Counting loops and slices *)

(** The values taken by [i] in [for i := 0; i < n; i++]. *)
Definition count_up (n : Z) : list Z := map Z.of_nat (seq 0 (Z.to_nat n)).

Fixpoint forM {A S} (l : list A) (body : A -> S -> M S) (s : S) : M S :=
  match l with
  | [] => ret s
  | a :: l' => s' <- body a s ;; forM l' body s'
  end.

(** [for i := 0; i < n; i++ { s = body i s }]. *)
Definition for_loop {S} (n : Z) (body : Z -> S -> M S) (s : S) : M S :=
  forM (count_up n) body s.

(** [make([]byte, n)]: panics on a negative length. *)
Definition make_bytes (n : Z) : M (list Z) :=
  if n <? 0 then panic else ret (repeat 0 (Z.to_nat n)).

(** [s[k]]: panics when [k] is out of range. *)
Definition load (s : list Z) (k : Z) : M Z :=
  if (0 <=? k) && (k <? Z.of_nat (List.length s))
  then ret (nth (Z.to_nat k) s 0)
  else panic.

Fixpoint set_nth (s : list Z) (k : nat) (v : Z) : list Z :=
  match s, k with
  | [], _ => []
  | _ :: s', O => v :: s'
  | b :: s', S k' => b :: set_nth s' k' v
  end.

(** [s[k] = v]: panics when [k] is out of range. *)
Definition store (s : list Z) (k : Z) (v : Z) : M (list Z) :=
  if (0 <=? k) && (k <? Z.of_nat (List.length s))
  then ret (set_nth s (Z.to_nat k) v)
  else panic.

(* ================================================================= *)
(** ** Colours *)

(** [color.RGBA]: four 8-bit channels. *)
Record RGBA : Type := mkRGBA { R : Byte.byte; G : Byte.byte; B : Byte.byte; A : Byte.byte }.

Definition chan (b : Byte.byte) : Z := Z.of_N (Byte.to_N b).

(** The method [color.RGBA.RGBA ()]: each channel widened to 16 bits in a
    [uint32] by [r |= r << 8]. *)
Definition RGBA_RGBA (c : RGBA) : Z * Z * Z * Z :=
  let w := fun b => Z.lor (chan b) (Z.shiftl (chan b) 8 mod 2 ^ 32) in
  (w (R c), w (G c), w (B c), w (A c)).

(** [color.White] and [color.Black] as stored in an [*image.RGBA]. *)
Definition opaque_white : RGBA := mkRGBA Byte.xff Byte.xff Byte.xff Byte.xff.
Definition opaque_black : RGBA := mkRGBA Byte.x00 Byte.x00 Byte.x00 Byte.xff.

(** The contents of an [*image.RGBA]: [At(i, j)] as a [color.RGBA]. *)
Definition RGBAImage : Type := Z -> Z -> RGBA.

(** [image.NewRGBA(image.Rect(0, 0, x, y))]: a zeroed image; the image
    package panics when the pixel buffer length [4 * Dx * Dy] does not fit
    an [int] (the rectangle is canonicalised, so [Dx = |x|], [Dy = |y|]). *)
Definition blank_image : RGBAImage :=
  fun _ _ => mkRGBA Byte.x00 Byte.x00 Byte.x00 Byte.x00.

Definition NewRGBA (x y : Z) : M RGBAImage :=
  if 4 * Z.abs x * Z.abs y <=? MaxInt then ret blank_image else panic.

(** What [d.Dither(dst)] hands back: [nil] with the image dithered in
    place, another [*image.RGBA], or an image of some other type. *)
Inductive DitherResult : Type :=
| DitherNil (dst' : RGBAImage)
| DitherRGBA (dithered : RGBAImage)
| DitherOther (typ : string).

(** The pixel test of the packing loop: [r+g+b == 0]. *)
Definition is_black (c : RGBA) : bool :=
  let '(r, g, b, _) := RGBA_RGBA c in
  add32 (add32 r g) b =? 0.

(** The flat pixel index [(i*y+j)] of both loops. *)
Definition pixel_offset (y i j : Z) : Z := add (mul i y) j.

(** The single-bit mask [1 << uint(7-off%8)]. *)
Definition bit_mask (off : Z) : Z := byte_shl1 (to_uint (sub 7 (rem off 8))).

(* ================================================================= *)
(** ** Strings: the calls into [strings] and [strconv] *)

Definition nl : string := String "010"%char EmptyString.
Definition tab : string := String "009"%char EmptyString.

Definition bytes_of_string (s : string) : list Z :=
  map (fun c => Z.of_N (N_of_ascii c)) (list_ascii_of_string s).

(** [strings.ToLower] on the ASCII range; bytes from 128 up are left as
    they are (Go maps them by Unicode case, which yields neither [x], a
    digit nor a sign from another character). *)
Definition lower_ascii (c : ascii) : ascii :=
  let n := N_of_ascii c in
  if ((65 <=? n) && (n <=? 90))%N then ascii_of_N (n + 32) else c.

Fixpoint ToLower (s : string) : string :=
  match s with
  | EmptyString => EmptyString
  | String c s' => String (lower_ascii c) (ToLower s')
  end.

(** [strings.Split(s, sep)] for a separator of one byte: all the fields,
    at least one. *)
Fixpoint Split (s : string) (sep : ascii) : list string :=
  match s with
  | EmptyString => [EmptyString]
  | String c s' =>
      if Ascii.eqb c sep then EmptyString :: Split s' sep
      else match Split s' sep with
           | [] => [String c EmptyString]
           | f :: fs => String c f :: fs
           end
  end.

Definition digit_val (c : ascii) : option Z :=
  let n := N_of_ascii c in
  if ((48 <=? n) && (n <=? 57))%N then Some (Z.of_N n - 48) else None.

(** The digit loop of [strconv.ParseUint] in base 10 on 64 bits: a byte
    that is no digit is a syntax error, a value above [2^64-1] a range
    error, whichever comes first from the left. *)
Fixpoint parse_uint (fn orig : string) (s : string) (acc : Z) : Z + error :=
  match s with
  | EmptyString => inl acc
  | String c s' =>
      match digit_val c with
      | None => inr (ErrSyntax fn orig)
      | Some d =>
          if 2 ^ 64 - 1 <? 10 * acc + d then inr (ErrRange fn orig)
          else parse_uint fn orig s' (10 * acc + d)
      end
  end.

(** [strconv.Atoi]: an optional sign, then one or more decimal digits,
    the value within [int]. *)
Definition Atoi (s : string) : Z + error :=
  let fn := "Atoi"%string in
  match s with
  | EmptyString => inr (ErrSyntax fn s)
  | String c s' =>
      let '(neg, digits) :=
        if Ascii.eqb c "-" then (true, s')
        else if Ascii.eqb c "+" then (false, s')
        else (false, s) in
      match digits with
      | EmptyString => inr (ErrSyntax fn s)
      | _ =>
          match parse_uint fn s digits 0 with
          | inr e => inr e
          | inl n =>
              if neg then (if 2 ^ 63 <? n then inr (ErrRange fn s) else inl (- n))
              else (if 2 ^ 63 <=? n then inr (ErrRange fn s) else inl n)
          end
      end
  end.

(** [ParseRatio], lines 250 to 265. Both coordinates are read from
    [pixels[0]], as in the source. *)
Definition ParseRatio (rstr : string) : (Z * Z) + error :=
  let rstr := ToLower rstr in
  let pixels := Split rstr "x" in
  if negb (Nat.eqb (List.length pixels) 2) then
    inr (ErrNew "invalid ratio string provided")
  else
    match Atoi (nth 0 pixels EmptyString) with
    | inr err => inr (ErrJoin (ErrNew "error: could not parse x coordinate count") err)
    | inl x =>
        match Atoi (nth 0 pixels EmptyString) with
        | inr err => inr (ErrJoin (ErrNew "error: could not parse y coordinate count") err)
        | inl y => inl (x, y)
        end
    end.

(** The reading of the contract in the specification: the second
    coordinate comes from the second field. It is compared with
    [ParseRatio], never used to define it. *)
Definition ParseRatio_spec (rstr : string) : (Z * Z) + error :=
  let rstr := ToLower rstr in
  let pixels := Split rstr "x" in
  if negb (Nat.eqb (List.length pixels) 2) then
    inr (ErrNew "invalid ratio string provided")
  else
    match Atoi (nth 0 pixels EmptyString) with
    | inr err => inr (ErrJoin (ErrNew "error: could not parse x coordinate count") err)
    | inl x =>
        match Atoi (nth 1 pixels EmptyString) with
        | inr err => inr (ErrJoin (ErrNew "error: could not parse y coordinate count") err)
        | inl y => inl (x, y)
        end
    end.

Definition is_error {A E} (r : A + E) : bool :=
  match r with inl _ => false | inr _ => true end.

(* ================================================================= *)
(** ** The preview printer *)

(** Lines 288 and 289: the bit that [PrintImg] extracts for row [i] and
    column [j]. *)
Definition PrintImg_bit (y : Z) (imgBits : list Z) (i j : Z) : M Z :=
  let offset := pixel_offset y j i in
  b <- load imgBits (div offset 8) ;;
  ret (byte_and b (bit_mask offset)).

Definition glyph (bit : Z) : string :=
  if negb (bit =? 0) then "*"%string else " "%string.

(** [PrintImg], lines 285 to 298. *)
Definition PrintImg (x y : Z) (imgBits : list Z) : M unit :=
  for_loop y
    (fun i _ =>
       for_loop x
         (fun j _ => bit <- PrintImg_bit y imgBits i j ;; emit (EvStderr (glyph bit)))
         tt ;;
       emit (EvStderr nl))
    tt.

(* ================================================================= *)
(** ** The program *)

(** The package-level flag variables, after [flag.Parse ()]. *)
Record Flags : Type := mkFlags {
  disableDithering : bool;
  outMode : string;
  show : bool;
  ratio : string
}.

Section Program.

(** A decoded [image.Image]. *)
Variable Image : Type.

(** [draw.NearestNeighbor.Scale(dst, dst.Rect, src, src.Bounds(),
    draw.Over, nil)] for a [dst] of size [x] by [y]: [dst] afterwards. *)
Variable Scale : Z -> Z -> RGBAImage -> Image -> RGBAImage.

(** [d.Dither(dst)] with the black and white palette and the
    Floyd-Steinberg matrix. *)
Variable Dither : RGBAImage -> DitherResult.

(** The image that the packing loop reads, and the Go code up to the
    loop: lines 196 to 232. *)
Definition prepare (disableDithering : bool) (x y : Z) (inputImg : Image)
  : M (RGBAImage * list Z) :=
  dst <- NewRGBA x y ;;
  let dst := Scale x y dst inputImg in
  imageBits <- make_bytes (div (mul x y) 8) ;;
  if disableDithering then ret (dst, imageBits)
  else
    match Dither dst with
    | DitherNil dst' => ret (dst', imageBits)
    | DitherRGBA dithered => ret (dithered, imageBits)
    | DitherOther typ =>
        log_Fatalf ("error: typeof dithered should have been `*image.RGBA` but was `"
                      ++ typ ++ "`")%string
    end.

(** The body of the inner loop, lines 239 to 244. *)
Definition pack_pixel (dst : RGBAImage) (y i j : Z) (imageBits : list Z) : M (list Z) :=
  if is_black (dst i j) then
    let k := div (pixel_offset y i j) 8 in
    old <- load imageBits k ;;
    store imageBits k (byte_or old (bit_mask (pixel_offset y i j)))
  else ret imageBits.

(** The two nested loops, lines 236 to 246. *)
Definition pack_loop (dst : RGBAImage) (x y : Z) (imageBits : list Z) : M (list Z) :=
  for_loop x (fun i bits => for_loop y (fun j bits' => pack_pixel dst y i j bits') bits)
           imageBits.

Definition ImgToBytes (disableDithering : bool) (x y : Z) (inputImg : Image)
  : M (list Z) :=
  '(dst, imageBits) <- prepare disableDithering x y inputImg ;;
  pack_loop dst x y imageBits.

(** *** The world around the program *)

(** [os.Args[0]]. *)
Variable argv0 : string.
(** [os.Stat], [os.Open] and [os.Create] by file name, [image.Decode] by
    the name of the opened file, [Write] by file name and data: [None] is
    a nil error. *)
Variable os_Stat : string -> option error.
Variable os_Open : string -> option error.
Variable image_Decode : string -> Image + error.
Variable os_Create : string -> option error.
Variable file_Write : string -> list Z -> option error.
(** [base64.StdEncoding.EncodeToString]. *)
Variable base64_EncodeToString : list Z -> string.

Definition EncodeToString (imageBits : list Z) : string :=
  base64_EncodeToString imageBits.

(** [outf.Write(data)] on the file created as [filename]. *)
Definition Write_to (filename : string) (data : list Z) : M (option error) :=
  emit (EvWrite filename data) ;; ret (file_Write filename data).

(** [WriteToBinFile], lines 137 to 145. *)
Definition WriteToBinFile (filename : string) (imageBits : list Z) : M (option error) :=
  emit (EvCreate filename) ;;
  match os_Create filename with
  | Some err => ret (Some err)
  | None =>
      err <- Write_to filename imageBits ;;
      emit (EvClose filename) ;;
      ret err
  end.

Definition hex_digit (d : Z) : string :=
  String.substring (Z.to_nat d) 1 "0123456789ABCDEF".

(** [fmt.Sprintf("0x%02X, ", b)] for a byte [b]. *)
Definition hex_entry (b : Z) : string :=
  ("0x" ++ hex_digit (b / 16) ++ hex_digit (b mod 16) ++ ", ")%string.

(** The [range] loop of lines 163 to 175, from index [i] on: the first
    failed [Write] ends it. *)
Fixpoint write_entries (filename : string) (i : Z) (imageBits : list Z)
  : M (option error) :=
  match imageBits with
  | [] => ret None
  | b :: rest =>
      err <- (if rem i 32 =? 0
              then Write_to filename (bytes_of_string (nl ++ tab))
              else ret None) ;;
      match err with
      | Some e => ret (Some e)
      | None =>
          err <- Write_to filename (bytes_of_string (hex_entry b)) ;;
          match err with
          | Some e => ret (Some e)
          | None => write_entries filename (add i 1) rest
          end
      end
  end.

(** [WriteToGoFile], lines 148 to 178. *)
Definition WriteToGoFile (filename variablename : string) (imageBits : list Z)
  : M (option error) :=
  emit (EvCreate filename) ;;
  match os_Create filename with
  | Some err => ret (Some err)
  | None =>
      err <- (err <- Write_to filename
                (bytes_of_string
                   ("// Code generated by " ++ argv0 ++ " DO NOT EDIT." ++ nl ++ nl
                    ++ "package main" ++ nl ++ nl ++ "var r" ++ variablename
                    ++ " = []byte{")) ;;
              match err with
              | Some e => ret (Some e)
              | None =>
                  err <- write_entries filename 0 imageBits ;;
                  match err with
                  | Some e => ret (Some e)
                  | None => Write_to filename (bytes_of_string (nl ++ "}" ++ nl))
                  end
              end) ;;
      emit (EvClose filename) ;;
      ret err
  end.

(** [LoadImg], lines 181 to 191. *)
Definition LoadImg (infile : string) : Image + error :=
  match os_Open infile with
  | Some err => inr err
  | None => image_Decode infile
  end.

(** [Usage], lines 270 to 280: the help text, then [os.Exit(1)]. *)
Definition Usage {T} : M T :=
  emit (EvStderr ("Usage of " ++ argv0 ++ " <input_image>:" ++ nl)) ;;
  emit EvPrintDefaults ;;
  emit (EvStderr (nl ++ "Examples:" ++ nl ++ argv0
                  ++ " input.png -outmode bin -ratio profile" ++ nl ++ argv0
                  ++ " input.jpg -outmode rice -ratio 128x128 -disable-dithering -show"
                  ++ nl)) ;;
  os_Exit 1.

(** The [switch ratio] of [main], lines 70 to 99: the target size. *)
Definition resolve_ratio (ratio : string) : M (Z * Z) :=
  if String.eqb ratio "profile" then ret (120, 128)
  else if String.eqb ratio "splash" then ret (246, 128)
  else if String.eqb ratio "" then
    emit (EvLog ("error: a ratio must be provided." ++ nl)) ;; Usage
  else
    match ParseRatio ratio with
    | inr err => emit (EvLogErr "" err) ;; Usage
    | inl (x, y) =>
        if negb (rem y 8 =? 0) then
          emit (EvLog "error: height/y value must be divisible by 8") ;; os_Exit 1
        else ret (x, y)
    end.

(** The [switch outMode] of [main], lines 101 to 120. *)
Definition emit_output (fl : Flags) (imgBits : list Z) : M unit :=
  if String.eqb (outMode fl) "rice" then
    err <- WriteToGoFile (ratio fl ++ "-generated.go") (ratio fl) imgBits ;;
    match err with
    | Some e => emit (EvLogErr "error writing image to file: " e) ;;
                os_Exit 1
    | None => ret tt
    end
  else if String.eqb (outMode fl) "bin" then
    err <- WriteToBinFile (ratio fl ++ ".bin") imgBits ;;
    match err with
    | Some e => emit (EvLogErr "error writing image to file: " e) ;;
                os_Exit 1
    | None => ret tt
    end
  else if String.eqb (outMode fl) "base64" then
    emit (EvStdout (EncodeToString imgBits ++ nl))
  else if String.eqb (outMode fl) "none" then ret tt
  else
    emit (EvLog ("error: invalid outmode `" ++ outMode fl ++ "`" ++ nl ++ nl)) ;;
    Usage.

(** [main], lines 31 to 124, from the state after [flag.Parse ()]:
    [args] is [flag.Args ()]. *)
Definition main (fl : Flags) (args : list string) : M unit :=
  if negb (Nat.eqb (List.length args) 1) then
    emit (EvLog ("args: [" ++ String.concat " " args ++ "]" ++ nl ++ nl)) ;;
    emit (EvStderr ("Usage of " ++ argv0 ++ " <input_image>:" ++ nl)) ;;
    emit EvPrintDefaults ;;
    emit (EvStderr (nl ++ "Examples:" ++ nl ++ argv0
                    ++ " -outmode bin -ratio splash tainigo_128.png" ++ nl ++ argv0
                    ++ " -outmode rice -ratio 128x128 -disable-dithering -show image.jpg"
                    ++ nl)) ;;
    os_Exit 1
  else
    let infile := nth 0 args EmptyString in
    match os_Stat infile with
    | Some err =>
        emit (EvLogErr ("could not stat " ++ infile ++ ": ") err) ;;
        os_Exit 1
    | None =>
        match LoadImg infile with
        | inr err =>
            emit (EvLogErr "error loading source image: " err) ;;
            os_Exit 1
        | inl sourceImage =>
            '(x, y) <- resolve_ratio (ratio fl) ;;
            emit (EvImgToBytes x y) ;;
            imgBits <- ImgToBytes (disableDithering fl) x y sourceImage ;;
            emit_output fl imgBits ;;
            if show fl then PrintImg x y imgBits else ret tt
        end
    end.

End Program.

Arguments ImgToBytes {Image} Scale Dither disableDithering x y inputImg.
Arguments prepare {Image} Scale Dither disableDithering x y inputImg.
Arguments LoadImg {Image} os_Open image_Decode infile.
Arguments main {Image} Scale Dither argv0 os_Stat os_Open image_Decode os_Create
  file_Write base64_EncodeToString fl args.

(* ================================================================= *)
(** ** A concrete world, for running the definitions *)

Module Demo.

(** A decoded image is its pixel function. *)
Definition Image : Type := Z -> Z -> RGBA.

Definition black : RGBA := opaque_black.
Definition white : RGBA := opaque_white.

(** A source of the target size already: scaling copies it. *)
Definition Scale (x y : Z) (dst : RGBAImage) (src : Image) : RGBAImage := src.

(** A ditherer that leaves a two-colour image as it is, in place. *)
Definition Dither (dst : RGBAImage) : DitherResult := DitherNil dst.

(** Black on the diagonal [i = j], white elsewhere. *)
Definition diagonal : Image := fun i j => if i =? j then black else white.
Definition all_white : Image := fun _ _ => white.

Definition argv0 : string := "gopherbadgeimg".
Definition os_Stat (f : string) : option error := None.
Definition os_Open (f : string) : option error := None.
Definition image_Decode (f : string) : Image + error := inl diagonal.
Definition os_Create (f : string) : option error := None.
Definition file_Write (f : string) (data : list Z) : option error := None.
Definition base64_EncodeToString (data : list Z) : string := "".

Definition run (fl : Flags) (args : list string) : M unit :=
  main Scale Dither argv0 os_Stat os_Open image_Decode os_Create file_Write
       base64_EncodeToString fl args.

End Demo.

(* ================================================================= *)
(** ** Vocabulary of the statements *)

Definition is_byte (b : Z) : Prop := 0 <= b < 256.

(** The bit of the pixel with flat index [p] in a packed buffer: bit
    [7 - p mod 8] of byte [p / 8]. *)
Definition get_bit (buf : list Z) (p : Z) : bool :=
  Z.testbit (nth (Z.to_nat (p / 8)) buf 0) (7 - p mod 8).

(** The state of the packing loop once the pixels of flat index below
    [done] are packed. *)
Definition packed (dst : RGBAImage) (x y done : Z) (buf : list Z) : Prop :=
  Z.of_nat (List.length buf) = x * y / 8 /\
  Forall is_byte buf /\
  forall p, 0 <= p < x * y ->
            get_bit buf p = (p <? done) && is_black (dst (p / y) (p mod y)).

(** The sum of the three colour channels as [RGBA ()] returns them, in
    unbounded integers. *)
Definition channel_sum (c : RGBA) : Z :=
  let '(r, g, b, _) := RGBA_RGBA c in r + g + b.

(** The preview of an on/off pattern [on col row]: one line per row, one
    glyph per column. *)
Definition preview_row (on : Z -> Z -> bool) (x i : Z) : list event :=
  (map (fun j => EvStderr (if on j i then "*" else " ")%string) (count_up x)
     ++ [EvStderr nl])%list.

Definition preview (on : Z -> Z -> bool) (x y : Z) : list event :=
  flat_map (preview_row on x) (count_up y).

(** Events that create, write or close a file, or print on standard
    output. *)
Definition is_output (e : event) : bool :=
  match e with
  | EvCreate _ | EvWrite _ _ | EvClose _ | EvStdout _ => true
  | _ => false
  end.

Definition is_ImgToBytes_call (e : event) : bool :=
  match e with
  | EvImgToBytes _ _ => true
  | _ => false
  end.

Definition known_outmode (m : string) : bool :=
  String.eqb m "rice" || String.eqb m "bin" || String.eqb m "base64"
  || String.eqb m "none".

(** A trace that only talks on the diagnostic stream. *)
Definition diagnostic_only (t : list event) : bool :=
  forallb (fun e => match e with
                    | EvLog _ | EvLogErr _ _ | EvStderr _ | EvPrintDefaults => true
                    | _ => false
                    end) t.

(** The target size that [main] resolves from the ratio flag, before it
    checks the height: a preset, or what [ParseRatio] returns. *)
Definition resolved_size (ratio : string) : option (Z * Z) :=
  if String.eqb ratio "profile" then Some (120, 128)
  else if String.eqb ratio "splash" then Some (246, 128)
  else if String.eqb ratio "" then None
  else match ParseRatio ratio with
       | inl size => Some size
       | inr _ => None
       end.

(** The ditherer keeps its documented promise: what it returns, if
    anything, is an [*image.RGBA]. *)
Definition dither_returns_RGBA (Image : Type)
           (Scale : Z -> Z -> RGBAImage -> Image -> RGBAImage)
           (Dither : RGBAImage -> DitherResult) (x y : Z) (img : Image) : Prop :=
  forall typ, Dither (Scale x y blank_image img) <> DitherOther typ.

(** Runs the monad's plumbing, leaving the arithmetic folded. *)
Ltac run_go :=
  cbn [bind ret panic os_Exit emit log_Fatalf app fst snd trace exit_status].

(* ================================================================= *)
(** ** Vocabulary of the further properties *)

(** How often the byte [c] occurs in [s]. *)
Fixpoint count_char (c : ascii) (s : string) : nat :=
  match s with
  | EmptyString => O
  | String c' s' => ((if Ascii.eqb c' c then 1 else 0) + count_char c s')%nat
  end.

(** The decimal numeral with the digits [ds], most significant first, and
    the number it denotes. *)
Definition digit_char (d : Z) : ascii := ascii_of_N (Z.to_N (48 + d)).

Definition digit_string (ds : list Z) : string :=
  string_of_list_ascii (map digit_char ds).

Definition decimal_value (ds : list Z) : Z :=
  fold_left (fun acc d => 10 * acc + d) ds 0.

Definition is_digit (d : Z) : Prop := 0 <= d <= 9.

(** The value of an upper-case hexadecimal digit. *)
Definition hex_val (c : ascii) : option Z :=
  let n := N_of_ascii c in
  if ((48 <=? n) && (n <=? 57))%N then Some (Z.of_N n - 48)
  else if ((65 <=? n) && (n <=? 70))%N then Some (Z.of_N n - 55)
  else None.

(** The data of the [Write] calls on the file [f], in order, and the
    bytes the file holds after them. *)
Fixpoint written (f : string) (t : list event) : list (list Z) :=
  match t with
  | [] => []
  | EvWrite g data :: t' =>
      if String.eqb g f then data :: written f t' else written f t'
  | _ :: t' => written f t'
  end.

Definition file_content (f : string) (t : list event) : list Z :=
  List.concat (written f t).

(** The entries of the byte-array literal from index [i] on: a line
    break and a tab before every 32nd entry. *)
Fixpoint go_entries (i : Z) (imageBits : list Z) : string :=
  match imageBits with
  | [] => EmptyString
  | b :: rest =>
      String.append (if i mod 32 =? 0 then String.append nl tab else EmptyString)
                    (String.append (hex_entry b) (go_entries (i + 1) rest))
  end.

(** The text of the generated Go file. *)
Definition go_file (argv0 variablename : string) (imageBits : list Z) : string :=
  ("// Code generated by " ++ argv0 ++ " DO NOT EDIT." ++ nl ++ nl
   ++ "package main" ++ nl ++ nl ++ "var r" ++ variablename ++ " = []byte{"
   ++ go_entries 0 imageBits ++ nl ++ "}" ++ nl)%string.

(** Events on a file. *)
Definition is_file_event (e : event) : bool :=
  match e with
  | EvCreate _ | EvWrite _ _ | EvClose _ => true
  | _ => false
  end.

Definition is_stderr (e : event) : bool :=
  match e with
  | EvStderr _ => true
  | _ => false
  end.

(** The writes [ds] of one file, as the code issues them: either all of
    them succeed and the result is nil, or the last one is the first to
    fail and its error is the result. *)
Definition stops_at_first_failure (file_Write : string -> list Z -> option error)
           (f : string) (ds : list (list Z)) (err : option error) : Prop :=
  (Forall (fun d => file_Write f d = None) ds /\ err = None)
  \/ (exists ds' d e, ds = (ds' ++ [d])%list
                      /\ Forall (fun d' => file_Write f d' = None) ds'
                      /\ file_Write f d = Some e /\ err = Some e).

(** Lines of the [log] package. *)
Definition is_log (e : event) : bool :=
  match e with
  | EvLog _ | EvLogErr _ _ => true
  | _ => false
  end.

(** A piece of the program that does not exit without a log line, nor
    with a status other than 1. *)
Definition exits_loudly {A} (m : M A) : Prop :=
  forall c, snd m = Exit c -> c = 1 /\ existsb is_log (fst m) = true.

Module DemoIO.

(** A grid that is black everywhere. *)
Definition all_black : Demo.Image := fun _ _ => opaque_black.

(** A disk that takes the header of the generated file and nothing
    more. *)
Definition file_Write_full (f : string) (data : list Z) : option error :=
  if (Nat.leb (List.length data) 6) then Some (ErrOS "no space left on device")
  else None.

End DemoIO.

(* ================================================================= *)
(** ** Arithmetic of the embedding *)

Lemma wrap_int_small (z : Z) : in_int z -> wrap_int z = z.
Proof.
  unfold in_int, MinInt, MaxInt, wrap_int. intros Hz.
  rewrite Z.mod_small by lia. lia.
Qed.

Lemma MaxInt_value : MaxInt = 9223372036854775807.
Proof. reflexivity. Qed.

(** Inside a grid whose pixel count fits an [int], the flat index is
    computed without wrap-around. *)
Lemma pixel_offset_exact (x y i j : Z) :
  0 <= i < x -> 0 <= j < y -> x * y <= MaxInt ->
  pixel_offset y i j = i * y + j /\ 0 <= i * y + j < x * y.
Proof.
  intros Hi Hj Hfit.
  assert (Hlt : 0 <= i * y + j < x * y) by nia.
  assert (Hiy : 0 <= i * y <= i * y + j) by nia.
  split; [|exact Hlt].
  unfold pixel_offset, add, mul.
  rewrite (wrap_int_small (i * y)) by (unfold in_int, MinInt; rewrite MaxInt_value in *; lia).
  apply wrap_int_small. unfold in_int, MinInt. rewrite MaxInt_value in *. lia.
Qed.

Lemma div8_exact (off : Z) : 0 <= off <= MaxInt -> div off 8 = off / 8.
Proof.
  intros Hoff. unfold div. rewrite Z.quot_div_nonneg by lia.
  apply wrap_int_small. unfold in_int, MinInt. rewrite MaxInt_value in *.
  assert (0 <= off / 8 <= off); [|lia].
  split; [apply Z.div_pos; lia | apply Z.div_le_upper_bound; lia].
Qed.

Lemma bit_mask_exact (off : Z) : 0 <= off -> bit_mask off = 2 ^ (7 - off mod 8).
Proof.
  intros Hoff. unfold bit_mask, byte_shl1, to_uint, sub, rem.
  rewrite Z.rem_mod_nonneg by lia.
  assert (Hm : 0 <= off mod 8 < 8) by (apply Z.mod_pos_bound; lia).
  rewrite wrap_int_small by (unfold in_int, MinInt, MaxInt; lia).
  rewrite (Z.mod_small (7 - off mod 8) (2 ^ 64)) by lia.
  rewrite Z.shiftl_1_l.
  apply Z.mod_small. split; [apply Z.pow_nonneg; lia|].
  change 256 with (2 ^ 8). apply Z.pow_lt_mono_r; lia.
Qed.

Lemma buffer_length_exact (x y : Z) :
  0 <= x -> 0 <= y -> x * y <= MaxInt -> div (mul x y) 8 = x * y / 8.
Proof.
  intros Hx Hy Hfit. unfold mul.
  rewrite wrap_int_small by (unfold in_int, MinInt; rewrite MaxInt_value in *; nia).
  apply div8_exact. nia.
Qed.

(** A flat index splits back into its column and its row. *)
Lemma offset_col_row (y i j : Z) :
  0 <= j < y -> (i * y + j) / y = i /\ (i * y + j) mod y = j.
Proof.
  intros Hj. split.
  - rewrite Z.add_comm, Z.div_add by lia. rewrite Z.div_small by lia. lia.
  - rewrite Z.add_comm, Z.mod_add by lia. apply Z.mod_small; lia.
Qed.

(** With a height that is a multiple of 8, the byte of every pixel lies
    inside the buffer. *)
Lemma byte_index_in_bounds (x y off : Z) :
  y mod 8 = 0 -> 0 <= off < x * y -> 0 <= off / 8 < x * y / 8.
Proof.
  intros Hy Hoff.
  assert (Hd : (x * y) mod 8 = 0).
  { rewrite <- Z.mul_mod_idemp_r, Hy, Z.mul_0_r by lia. reflexivity. }
  apply Z.div_exact in Hd; [|lia].
  split; [apply Z.div_pos; lia|].
  apply Z.div_lt_upper_bound; lia.
Qed.

(* ================================================================= *)
(** ** Loops *)

Lemma forM_range_inv {St} (I : Z -> St -> Prop) (T : Z -> list event)
      (body : Z -> St -> M St) :
  forall (n lo : nat) (s : St),
    I (Z.of_nat lo) s ->
    (forall i s0, Z.of_nat lo <= i < Z.of_nat (lo + n) -> I i s0 ->
                  exists s1, body i s0 = (T i, Ret s1) /\ I (i + 1) s1) ->
    exists s', forM (map Z.of_nat (seq lo n)) body s
               = (flat_map T (map Z.of_nat (seq lo n)), Ret s')
               /\ I (Z.of_nat (lo + n)) s'.
Proof.
  induction n as [|n IH]; intros lo s Hs Hstep.
  - exists s. rewrite Nat.add_0_r. split; [reflexivity | exact Hs].
  - destruct (Hstep (Z.of_nat lo) s) as [s1 [Hb Hs1]]; [lia | exact Hs |].
    destruct (IH (S lo) s1) as [s' [Hrun Hs']].
    + replace (Z.of_nat (S lo)) with (Z.of_nat lo + 1) by lia. exact Hs1.
    + intros i s0 Hi. apply Hstep. lia.
    + exists s'. split.
      * cbn [seq map forM flat_map]. rewrite Hb. cbn [bind]. rewrite Hrun. reflexivity.
      * replace (lo + S n)%nat with (S lo + n)%nat by lia. exact Hs'.
Qed.

(** The invariant rule of [for i := 0; i < n; i++]: the loop runs to its
    end, its trace is the traces of the iterations in order. *)
Lemma for_loop_inv {St} (I : Z -> St -> Prop) (T : Z -> list event)
      (n : Z) (body : Z -> St -> M St) (s : St) :
  0 <= n ->
  I 0 s ->
  (forall i s0, 0 <= i < n -> I i s0 ->
                exists s1, body i s0 = (T i, Ret s1) /\ I (i + 1) s1) ->
  exists s', for_loop n body s = (flat_map T (count_up n), Ret s') /\ I n s'.
Proof.
  intros Hn H0 Hstep. unfold for_loop, count_up.
  destruct (forM_range_inv I T body (Z.to_nat n) 0 s) as [s' [Hrun Hs']].
  - exact H0.
  - intros i s0 Hi. apply Hstep. lia.
  - exists s'. split; [exact Hrun|].
    replace n with (Z.of_nat (0 + Z.to_nat n)) at 1 by lia. exact Hs'.
Qed.

Lemma flat_map_silent {X} (l : list X) : flat_map (fun _ => @nil event) l = [].
Proof. induction l; [reflexivity | exact IHl]. Qed.

Lemma flat_map_single {X Y} (f : X -> Y) (l : list X) :
  flat_map (fun a => [f a]) l = map f l.
Proof. induction l as [|a l IH]; [reflexivity | cbn; now rewrite IH]. Qed.

Lemma in_count_up (n i : Z) : In i (count_up n) <-> 0 <= i < n.
Proof.
  unfold count_up. rewrite in_map_iff. split.
  - intros [k [Hk Hin]]. apply in_seq in Hin. lia.
  - intros Hi. exists (Z.to_nat i). split; [lia | apply in_seq; lia].
Qed.

(* ================================================================= *)
(** ** Bits and bytes *)

Lemma byte_or_range (v s : Z) :
  is_byte v -> 0 <= s < 8 -> is_byte (byte_or v (2 ^ s)).
Proof.
  unfold is_byte, byte_or. intros Hv Hs.
  assert (Hp : 0 < 2 ^ s) by (apply Z.pow_pos_nonneg; lia).
  assert (Hnn : 0 <= Z.lor v (2 ^ s)) by (apply Z.lor_nonneg; lia).
  split; [exact Hnn|].
  change 256 with (2 ^ 8).
  destruct (Z.eq_dec (Z.lor v (2 ^ s)) 0) as [E|E]; [rewrite E; reflexivity|].
  apply Z.log2_lt_pow2; [lia|].
  rewrite Z.log2_lor by lia.
  rewrite Z.log2_pow2 by lia.
  apply Z.max_lub_lt; [|lia].
  destruct (Z.eq_dec v 0) as [V|V]; [subst v; cbn; lia|].
  apply Z.log2_lt_pow2; [lia|]. change (2 ^ 8) with 256. lia.
Qed.

Lemma testbit_or_pow2 (v s b : Z) :
  0 <= s -> Z.testbit (Z.lor v (2 ^ s)) b = Z.testbit v b || (s =? b).
Proof. intros Hs. now rewrite Z.lor_spec, Z.pow2_bits_eqb. Qed.

Lemma land_pow2 (v s : Z) :
  0 <= s -> Z.land v (2 ^ s) = if Z.testbit v s then 2 ^ s else 0.
Proof.
  intros Hs. apply Z.bits_inj'. intros n Hn.
  rewrite Z.land_spec, Z.pow2_bits_eqb by lia.
  destruct (Z.eqb_spec s n) as [->|Hne].
  - destruct (Z.testbit v n); [now rewrite Z.pow2_bits_true | now rewrite Z.bits_0].
  - rewrite andb_false_r.
    destruct (Z.testbit v s); [|now rewrite Z.bits_0].
    rewrite Z.pow2_bits_eqb by lia. symmetry. now apply Z.eqb_neq.
Qed.

Lemma byte_high_bits (v b : Z) : is_byte v -> 8 <= b -> Z.testbit v b = false.
Proof.
  unfold is_byte. intros Hv Hb.
  destruct (Z.eq_dec v 0) as [->|V]; [apply Z.bits_0|].
  apply Z.bits_above_log2; [lia|].
  assert (Z.log2 v < 8); [|lia].
  apply Z.log2_lt_pow2; [lia|]. change (2 ^ 8) with 256. lia.
Qed.

Lemma length_set_nth (l : list Z) (k : nat) (v : Z) :
  List.length (set_nth l k v) = List.length l.
Proof.
  revert k. induction l as [|a l IH]; intros [|k]; cbn; try reflexivity.
  now rewrite IH.
Qed.

Lemma nth_set_nth_eq (l : list Z) (k : nat) (v d : Z) :
  (k < List.length l)%nat -> nth k (set_nth l k v) d = v.
Proof.
  revert k. induction l as [|a l IH]; intros [|k] Hk; cbn in *; try lia.
  apply IH. lia.
Qed.

Lemma nth_set_nth_neq (l : list Z) (k n : nat) (v d : Z) :
  k <> n -> nth k (set_nth l n v) d = nth k l d.
Proof.
  revert k n. induction l as [|a l IH]; intros [|k] [|n] Hne; cbn; try reflexivity.
  - congruence.
  - apply IH. congruence.
Qed.

Lemma Forall_set_nth (P : Z -> Prop) (l : list Z) (k : nat) (v : Z) :
  Forall P l -> P v -> Forall P (set_nth l k v).
Proof.
  intros Hl Hv. revert k. induction Hl as [|a l Ha Hl IH]; intros [|k]; cbn.
  - constructor.
  - constructor.
  - constructor; assumption.
  - constructor; [assumption | apply IH].
Qed.

Lemma Forall_nth_byte (l : list Z) (k : nat) : Forall is_byte l -> is_byte (nth k l 0).
Proof.
  intros Hl. destruct (Nat.lt_ge_cases k (List.length l)) as [Hk|Hk].
  - rewrite Forall_forall in Hl. apply Hl, nth_In, Hk.
  - rewrite nth_overflow by exact Hk. unfold is_byte. lia.
Qed.

(** Setting the bit of pixel [idx] changes the bit of that pixel and of
    no other. *)
Lemma get_bit_set (buf : list Z) (idx p : Z) :
  0 <= idx -> 0 <= p -> idx / 8 < Z.of_nat (List.length buf) ->
  get_bit (set_nth buf (Z.to_nat (idx / 8))
                   (byte_or (nth (Z.to_nat (idx / 8)) buf 0) (2 ^ (7 - idx mod 8)))) p
  = get_bit buf p || (p =? idx).
Proof.
  intros Hidx Hp Hlen. unfold get_bit, byte_or.
  assert (Hmi : 0 <= idx mod 8 < 8) by (apply Z.mod_pos_bound; lia).
  assert (Hmp : 0 <= p mod 8 < 8) by (apply Z.mod_pos_bound; lia).
  assert (Hqi : 0 <= idx / 8) by (apply Z.div_pos; lia).
  assert (Hqp : 0 <= p / 8) by (apply Z.div_pos; lia).
  pose proof (Z.div_mod idx 8 ltac:(lia)) as Ei.
  pose proof (Z.div_mod p 8 ltac:(lia)) as Ep.
  destruct (Z.eq_dec (p / 8) (idx / 8)) as [Hq|Hq].
  - rewrite Hq, nth_set_nth_eq by lia.
    rewrite testbit_or_pow2 by lia. f_equal.
    destruct (Z.eqb_spec p idx) as [->|Hne]; [apply Z.eqb_refl|].
    apply Z.eqb_neq. lia.
  - rewrite nth_set_nth_neq by lia.
    replace (p =? idx) with false; [now rewrite orb_false_r|].
    symmetry. apply Z.eqb_neq. intros ->. apply Hq. reflexivity.
Qed.

(* ================================================================= *)
(** ** The packing loop *)

Lemma packed_init (dst : RGBAImage) (x y : Z) :
  0 <= x * y -> packed dst x y 0 (repeat 0 (Z.to_nat (x * y / 8))).
Proof.
  intros Hxy. assert (0 <= x * y / 8) by (apply Z.div_pos; lia).
  repeat split.
  - rewrite repeat_length. lia.
  - apply Forall_forall. intros b Hb. apply repeat_spec in Hb. subst b.
    unfold is_byte. lia.
  - intros p Hp. unfold get_bit. rewrite nth_repeat, Z.bits_0.
    replace (p <? 0) with false by (symmetry; apply Z.ltb_ge; lia). reflexivity.
Qed.

(** One iteration of the inner loop packs the pixel of flat index
    [i*y+j]; its accesses to the buffer are in range. *)
Lemma pack_pixel_step (dst : RGBAImage) (x y i j : Z) (buf : list Z) :
  y mod 8 = 0 -> x * y <= MaxInt -> 0 <= i < x -> 0 <= j < y ->
  packed dst x y (i * y + j) buf ->
  exists buf', pack_pixel dst y i j buf = ([], Ret buf')
               /\ packed dst x y (i * y + j + 1) buf'.
Proof.
  intros Hy8 Hfit Hi Hj (Hlen & Hbytes & Hbits).
  destruct (pixel_offset_exact x y i j Hi Hj Hfit) as [Hoff Hrange].
  destruct (offset_col_row y i j Hj) as [Hcol Hrow].
  pose proof (byte_index_in_bounds x y _ Hy8 Hrange) as Hk.
  assert (Hm : 0 <= (i * y + j) mod 8 < 8) by (apply Z.mod_pos_bound; lia).
  unfold pack_pixel. rewrite Hoff, div8_exact, bit_mask_exact by lia.
  destruct (is_black (dst i j)) eqn:Hblack.
  - unfold load, store.
    replace ((0 <=? (i * y + j) / 8) && ((i * y + j) / 8 <? Z.of_nat (List.length buf)))
      with true by (symmetry; apply andb_true_iff; split;
                    [apply Z.leb_le | apply Z.ltb_lt]; lia).
    cbn [bind ret app]. eexists. split; [reflexivity|].
    repeat split.
    + rewrite length_set_nth. exact Hlen.
    + apply Forall_set_nth; [exact Hbytes|].
      apply byte_or_range; [apply Forall_nth_byte, Hbytes | lia].
    + intros p Hp. rewrite get_bit_set by lia. rewrite (Hbits p Hp).
      destruct (Z.eqb_spec p (i * y + j)) as [->|Hne].
      * rewrite Hcol, Hrow, Hblack, orb_true_r.
        replace (i * y + j <? i * y + j + 1) with true
          by (symmetry; apply Z.ltb_lt; lia).
        reflexivity.
      * rewrite orb_false_r. f_equal.
        destruct (Z.ltb_spec p (i * y + j)); destruct (Z.ltb_spec p (i * y + j + 1));
          try reflexivity; lia.
  - exists buf. split; [reflexivity|].
    repeat split; [exact Hlen | exact Hbytes |].
    intros p Hp. rewrite (Hbits p Hp).
    destruct (Z.eq_dec p (i * y + j)) as [->|Hne].
    + rewrite Hcol, Hrow, Hblack, !andb_false_r. reflexivity.
    + f_equal.
      destruct (Z.ltb_spec p (i * y + j)); destruct (Z.ltb_spec p (i * y + j + 1));
        try reflexivity; lia.
Qed.

(** The nested loops run to their end without a panic and leave every
    pixel packed. *)
Lemma pack_loop_correct (dst : RGBAImage) (x y : Z) (buf : list Z) :
  0 <= x -> 0 <= y -> y mod 8 = 0 -> x * y <= MaxInt ->
  packed dst x y 0 buf ->
  exists buf', pack_loop dst x y buf = ([], Ret buf') /\ packed dst x y (x * y) buf'.
Proof.
  intros Hx Hy Hy8 Hfit Hinit. unfold pack_loop.
  destruct (for_loop_inv (fun i b => packed dst x y (i * y) b) (fun _ => [])
              x (fun i bits => for_loop y (fun j bits' => pack_pixel dst y i j bits') bits)
              buf Hx) as [buf' [Hrun Hfin]].
  - exact Hinit.
  - intros i b Hi Hb.
    destruct (for_loop_inv (fun j b' => packed dst x y (i * y + j) b') (fun _ => [])
                y (fun j bits' => pack_pixel dst y i j bits') b Hy) as [b1 [Hrun1 Hb1]].
    + now rewrite Z.add_0_r.
    + intros j b0 Hj Hb0.
      destruct (pack_pixel_step dst x y i j b0 Hy8 Hfit Hi Hj Hb0) as [b2 [Hp Hb2]].
      exists b2. split; [exact Hp|]. now rewrite Z.add_assoc.
    + exists b1. rewrite flat_map_silent in Hrun1. split; [exact Hrun1|].
      now replace ((i + 1) * y) with (i * y + y) by lia.
  - exists buf'. rewrite flat_map_silent in Hrun. split; assumption.
Qed.

(** What a fully packed buffer holds, pixel by pixel and bit by bit. *)
Lemma packed_pixels (dst : RGBAImage) (x y : Z) (bits : list Z) :
  0 <= x -> 0 <= y -> packed dst x y (x * y) bits ->
  (forall col row, 0 <= col < x -> 0 <= row < y ->
     get_bit bits (col * y + row) = is_black (dst col row)) /\
  (forall (k : nat) (b : Z), Z.testbit (nth k bits 0) b = true ->
     exists col row, 0 <= col < x /\ 0 <= row < y /\ is_black (dst col row) = true
                     /\ Z.of_nat k = (col * y + row) / 8
                     /\ b = 7 - (col * y + row) mod 8).
Proof.
  intros Hx Hy (Hlen & Hbytes & Hbits). split.
  - intros col row Hc Hr.
    destruct (offset_col_row y col row Hr) as [Ec Er].
    rewrite Hbits by nia. rewrite Ec, Er.
    replace (col * y + row <? x * y) with true by (symmetry; apply Z.ltb_lt; nia).
    reflexivity.
  - intros k b Hset.
    assert (Hk : (k < List.length bits)%nat).
    { destruct (Nat.lt_ge_cases k (List.length bits)) as [H|H]; [exact H|].
      rewrite nth_overflow, Z.bits_0 in Hset by exact H. discriminate. }
    assert (Hb0 : 0 <= b).
    { destruct (Z.lt_ge_cases b 0) as [H|H]; [|exact H].
      rewrite Z.testbit_neg_r in Hset by exact H. discriminate. }
    assert (Hb8 : b < 8).
    { destruct (Z.lt_ge_cases b 8) as [H|H]; [exact H|].
      rewrite (byte_high_bits _ b (Forall_nth_byte bits k Hbytes)) in Hset by lia.
      discriminate. }
    set (p := 8 * Z.of_nat k + (7 - b)).
    assert (Hq : p / 8 = Z.of_nat k).
    { unfold p. rewrite Z.add_comm, Z.mul_comm, Z.div_add by lia.
      rewrite Z.div_small by lia. lia. }
    assert (Hr : p mod 8 = 7 - b).
    { unfold p. rewrite Z.add_comm, Z.mul_comm, Z.mod_add by lia.
      apply Z.mod_small. lia. }
    assert (Hle : 8 * (x * y / 8) <= x * y) by (apply Z.mul_div_le; lia).
    assert (Hp : 0 <= p < x * y) by (unfold p; lia).
    assert (Hypos : 0 < y) by nia.
    specialize (Hbits p Hp). unfold get_bit in Hbits.
    rewrite Hq, Hr, Nat2Z.id in Hbits.
    replace (7 - (7 - b)) with b in Hbits by lia.
    rewrite Hset in Hbits.
    replace (p <? x * y) with true in Hbits by (symmetry; apply Z.ltb_lt; lia).
    pose proof (Z.div_mod p y ltac:(lia)) as Edm.
    pose proof (Z.mod_pos_bound p y Hypos) as Hmod.
    exists (p / y), (p mod y).
    replace (p / y * y + p mod y) with p by lia.
    repeat split; try lia.
    + apply Z.div_pos; lia.
    + apply Z.div_lt_upper_bound; lia.
    + symmetry. exact Hbits.
Qed.

(* ================================================================= *)
(** ** [ImgToBytes] *)

Lemma go_rem8_mod (y : Z) : 0 <= y -> rem y 8 = 0 -> y mod 8 = 0.
Proof. intros Hy H. unfold rem in H. now rewrite Z.rem_mod_nonneg in H by lia. Qed.

Lemma is_black_channels (c : RGBA) : is_black c = true <-> channel_sum c = 0.
Proof.
  unfold is_black, channel_sum, RGBA_RGBA, add32, chan.
  assert (W : forall b : Byte.byte,
             0 <= Z.lor (Z.of_N (Byte.to_N b))
                        (Z.shiftl (Z.of_N (Byte.to_N b)) 8 mod 2 ^ 32) < 2 ^ 16).
  { intros b. pose proof (Byte.to_N_bounded b) as Hb.
    assert (Hn : 0 <= Z.of_N (Byte.to_N b) < 256) by lia.
    rewrite Z.shiftl_mul_pow2 by lia.
    rewrite Z.mod_small by lia.
    split; [apply Z.lor_nonneg; lia|].
    destruct (Z.eq_dec (Z.of_N (Byte.to_N b)) 0) as [E|E]; [rewrite E; reflexivity|].
    apply Z.log2_lt_pow2.
    - assert (0 <= Z.lor (Z.of_N (Byte.to_N b)) (Z.of_N (Byte.to_N b) * 2 ^ 8))
        by (apply Z.lor_nonneg; lia).
      assert (Z.lor (Z.of_N (Byte.to_N b)) (Z.of_N (Byte.to_N b) * 2 ^ 8) <> 0); [|lia].
      intros H0. apply Z.lor_eq_0_iff in H0. lia.
    - rewrite Z.log2_lor by lia. apply Z.max_lub_lt.
      + apply Z.log2_lt_pow2; lia.
      + apply Z.log2_lt_pow2; lia. }
  pose proof (W (R c)) as Hr. pose proof (W (G c)) as Hg. pose proof (W (B c)) as Hb.
  set (r := Z.lor _ _) in *. set (g := Z.lor (Z.of_N (Byte.to_N (G c))) _) in *.
  set (b := Z.lor (Z.of_N (Byte.to_N (B c))) _) in *.
  rewrite (Z.mod_small (r + g)) by lia. rewrite Z.mod_small by lia.
  apply Z.eqb_eq.
Qed.

Section Packer.

Variable Image : Type.
Variable Scale : Z -> Z -> RGBAImage -> Image -> RGBAImage.
Variable Dither : RGBAImage -> DitherResult.

(** When the code before the loop returns, it has made no output, the
    image was allocated and the buffer is [x*y/8] zero bytes. *)
Lemma prepare_inv (dd : bool) (x y : Z) (img : Image) t dst buf :
  prepare Scale Dither dd x y img = (t, Ret (dst, buf)) ->
  t = [] /\ 4 * Z.abs x * Z.abs y <= MaxInt
  /\ 0 <= div (mul x y) 8
  /\ buf = repeat 0 (Z.to_nat (div (mul x y) 8))
  /\ (dd = true -> dst = Scale x y blank_image img).
Proof.
  unfold prepare, NewRGBA, make_bytes.
  destruct (Z.leb_spec (4 * Z.abs x * Z.abs y) MaxInt) as [Hfit|Hfit];
    [|run_go; intros H; discriminate H].
  destruct (Z.ltb_spec (div (mul x y) 8) 0) as [Hneg|Hlen];
    [run_go; intros H; discriminate H|].
  run_go. destruct dd.
  - run_go. intros H. inversion H. repeat split; auto.
  - destruct (Dither (Scale x y blank_image img)); run_go; intros H;
      inversion H; subst; repeat split; auto; intros Hdd; discriminate Hdd.
Qed.

Lemma prepare_total (dd : bool) (x y : Z) (img : Image) :
  0 <= x -> 0 <= y -> 4 * x * y <= MaxInt ->
  (dd = false -> dither_returns_RGBA Image Scale Dither x y img) ->
  exists dst, prepare Scale Dither dd x y img
              = ([], Ret (dst, repeat 0 (Z.to_nat (x * y / 8)))).
Proof.
  intros Hx Hy Hfit Hd. unfold prepare, NewRGBA, make_bytes.
  rewrite !Z.abs_eq by lia.
  replace (4 * x * y <=? MaxInt) with true by (symmetry; apply Z.leb_le; exact Hfit).
  rewrite buffer_length_exact by nia.
  assert (0 <= x * y / 8) by (apply Z.div_pos; nia).
  replace (x * y / 8 <? 0) with false by (symmetry; apply Z.ltb_ge; lia).
  run_go. destruct dd.
  - eexists. reflexivity.
  - specialize (Hd eq_refl). unfold dither_returns_RGBA in Hd.
    destruct (Dither (Scale x y blank_image img)) as [d|d|typ] eqn:E.
    + eexists. reflexivity.
    + eexists. reflexivity.
    + exfalso. exact (Hd typ eq_refl).
Qed.

(** [ImgToBytes] from the state the loop starts in. *)
Lemma ImgToBytes_packed (dd : bool) (x y : Z) (img : Image) t dst buf0 :
  0 <= x -> 0 <= y -> rem y 8 = 0 ->
  prepare Scale Dither dd x y img = (t, Ret (dst, buf0)) ->
  exists bits, ImgToBytes Scale Dither dd x y img = ([], Ret bits)
               /\ packed dst x y (x * y) bits.
Proof.
  intros Hx Hy Hy8 Hprep.
  destruct (prepare_inv _ _ _ _ _ _ _ Hprep) as (-> & Hfit & Hlen & -> & _).
  rewrite !Z.abs_eq in Hfit by lia.
  assert (Hxy : x * y <= MaxInt) by nia.
  destruct (pack_loop_correct dst x y (repeat 0 (Z.to_nat (div (mul x y) 8)))
              Hx Hy (go_rem8_mod y Hy Hy8) Hxy) as [bits [Hrun Hp]].
  - rewrite buffer_length_exact by lia. apply packed_init. nia.
  - exists bits. split; [|exact Hp].
    unfold ImgToBytes. rewrite Hprep. cbn [bind app]. rewrite Hrun. reflexivity.
Qed.

End Packer.

(* ================================================================= *)
(** ** [PrintImg] *)

Lemma glyph_of_bit (b : bool) (s : Z) :
  0 <= s -> glyph (if b then 2 ^ s else 0) = (if b then "*" else " ")%string.
Proof.
  intros Hs. unfold glyph. destruct b; [|reflexivity].
  assert (0 < 2 ^ s) by (apply Z.pow_pos_nonneg; lia).
  replace (2 ^ s =? 0) with false by (symmetry; apply Z.eqb_neq; lia). reflexivity.
Qed.

(** The extraction of lines 288 and 289 reads inside the buffer and
    yields the mask of the pixel when its bit is set, zero otherwise. *)
Lemma PrintImg_bit_exact (x y : Z) (buf : list Z) (i j : Z) :
  y mod 8 = 0 -> x * y <= MaxInt -> 0 <= i < y -> 0 <= j < x ->
  Z.of_nat (List.length buf) = x * y / 8 ->
  PrintImg_bit y buf i j
  = ([], Ret (if get_bit buf (j * y + i) then 2 ^ (7 - (j * y + i) mod 8) else 0)).
Proof.
  intros Hy8 Hfit Hi Hj Hlen.
  destruct (pixel_offset_exact x y j i Hj Hi Hfit) as [Hoff Hrange].
  pose proof (byte_index_in_bounds x y _ Hy8 Hrange) as Hk.
  assert (Hm : 0 <= (j * y + i) mod 8 < 8) by (apply Z.mod_pos_bound; lia).
  unfold PrintImg_bit, load. rewrite Hoff, div8_exact, bit_mask_exact by lia.
  replace ((0 <=? (j * y + i) / 8) && ((j * y + i) / 8 <? Z.of_nat (List.length buf)))
    with true by (symmetry; apply andb_true_iff; split;
                  [apply Z.leb_le | apply Z.ltb_lt]; lia).
  run_go. unfold byte_and. rewrite land_pow2 by lia. reflexivity.
Qed.

Lemma flat_map_ext_count {Y} (f g : Z -> list Y) (n : Z) :
  (forall i, 0 <= i < n -> f i = g i) ->
  flat_map f (count_up n) = flat_map g (count_up n).
Proof.
  intros H.
  assert (Hin : forall i, In i (count_up n) -> f i = g i)
    by (intros i Hi; apply H, in_count_up, Hi).
  induction (count_up n) as [|a l IH]; [reflexivity|].
  cbn. rewrite Hin by (left; reflexivity). f_equal.
  apply IH. intros i Hi. apply Hin. right. exact Hi.
Qed.

Lemma preview_ext (on on' : Z -> Z -> bool) (x y : Z) :
  (forall col row, 0 <= col < x -> 0 <= row < y -> on col row = on' col row) ->
  preview on x y = preview on' x y.
Proof.
  intros H. unfold preview. apply flat_map_ext_count. intros i Hi.
  unfold preview_row. f_equal. apply map_ext_in. intros j Hj.
  apply in_count_up in Hj. now rewrite H.
Qed.

(** On a buffer of the right length [PrintImg] never leaves the buffer
    and prints the bit of pixel [(col, row)] at line [row], place [col]. *)
Lemma PrintImg_preview (x y : Z) (buf : list Z) :
  0 <= x -> 0 <= y -> y mod 8 = 0 -> x * y <= MaxInt ->
  Z.of_nat (List.length buf) = x * y / 8 ->
  PrintImg x y buf = (preview (fun col row => get_bit buf (col * y + row)) x y, Ret tt).
Proof.
  intros Hx Hy Hy8 Hfit Hlen. unfold PrintImg, preview.
  destruct (for_loop_inv (fun _ (_ : unit) => True)
              (preview_row (fun col row => get_bit buf (col * y + row)) x) y
              (fun i _ =>
                 for_loop x
                   (fun j _ => bit <- PrintImg_bit y buf i j ;; emit (EvStderr (glyph bit)))
                   tt ;;
                 emit (EvStderr nl))
              tt Hy I) as [[] [Hrun _]]; [|exact Hrun].
  intros i [] Hi _.
  destruct (for_loop_inv (fun _ (_ : unit) => True)
              (fun j => [EvStderr (if get_bit buf (j * y + i) then "*" else " ")%string])
              x
              (fun j _ => bit <- PrintImg_bit y buf i j ;; emit (EvStderr (glyph bit)))
              tt Hx I) as [[] [Hrow _]].
  - intros j [] Hj _. exists tt. split; [|exact I].
    rewrite (PrintImg_bit_exact x y buf i j Hy8 Hfit Hi Hj Hlen). run_go.
    rewrite glyph_of_bit; [reflexivity|].
    assert (0 <= (j * y + i) mod 8 < 8) by (apply Z.mod_pos_bound; lia). lia.
  - exists tt. split; [|exact I].
    rewrite Hrow. run_go. rewrite flat_map_single. reflexivity.
Qed.

(* ================================================================= *)
(** ** Properties of the packer and of the preview *)

Section PackerProperties.

Variable Image : Type.
Variable Scale : Z -> Z -> RGBAImage -> Image -> RGBAImage.
Variable Dither : RGBAImage -> DitherResult.

(** C1. For a target of [x] by [y] pixels with [y] divisible by 8, and
    [dst] the two-colour grid that reaches the packing loop,
    [ImgToBytes] returns a buffer in which the pixel at column [col] and
    row [row] owns bit [7 - idx mod 8] of byte [idx / 8], with
    [idx = col*y+row]; that bit is set exactly when the pixel is black,
    and every bit that is set in the buffer is the bit of a black
    pixel. *)
Theorem ImgToBytes_sets_exactly_black_bits
        (dd : bool) (x y : Z) (img : Image) t (dst : RGBAImage) buf0 :
  0 <= x -> 0 <= y -> rem y 8 = 0 ->
  prepare Scale Dither dd x y img = (t, Ret (dst, buf0)) ->
  exists bits,
    ImgToBytes Scale Dither dd x y img = ([], Ret bits)
    /\ (forall col row, 0 <= col < x -> 0 <= row < y ->
          Z.testbit (nth (Z.to_nat ((col * y + row) / 8)) bits 0)
                    (7 - (col * y + row) mod 8)
          = is_black (dst col row))
    /\ (forall (k : nat) (b : Z), Z.testbit (nth k bits 0) b = true ->
          exists col row, 0 <= col < x /\ 0 <= row < y
                          /\ is_black (dst col row) = true
                          /\ Z.of_nat k = (col * y + row) / 8
                          /\ b = 7 - (col * y + row) mod 8).
Proof.
  intros Hx Hy Hy8 Hprep.
  destruct (ImgToBytes_packed Image Scale Dither dd x y img t dst buf0
              Hx Hy Hy8 Hprep) as [bits [Hrun Hp]].
  destruct (packed_pixels dst x y bits Hx Hy Hp) as [Hpix Hothers].
  exists bits. split; [exact Hrun|]. split; [|exact Hothers].
  intros col row Hc Hr. exact (Hpix col row Hc Hr).
Qed.



End PackerProperties.

(** C3. Packing, then the extraction of the preview, is a round trip: for
    every on/off pattern [dst] over [x] columns and [y] rows ([y]
    divisible by 8, the pixel count within [int]), the bit that [PrintImg]
    extracts for row [i] and column [j] is non-zero exactly when the
    packer saw the pixel of column [j], row [i] as black, and the text
    printed is the preview of that pattern. *)
Theorem pack_then_preview_roundtrip (dst : RGBAImage) (x y : Z) :
  0 <= x -> 0 <= y -> rem y 8 = 0 -> x * y <= MaxInt ->
  exists bits,
    pack_loop dst x y (repeat 0 (Z.to_nat (div (mul x y) 8))) = ([], Ret bits)
    /\ (forall i j, 0 <= i < y -> 0 <= j < x ->
          exists bit, PrintImg_bit y bits i j = ([], Ret bit)
                      /\ negb (bit =? 0) = is_black (dst j i))
    /\ PrintImg x y bits = (preview (fun col row => is_black (dst col row)) x y, Ret tt).
Proof.
  intros Hx Hy Hy8 Hfit. pose proof (go_rem8_mod y Hy Hy8) as Hm.
  destruct (pack_loop_correct dst x y (repeat 0 (Z.to_nat (div (mul x y) 8)))
              Hx Hy Hm Hfit) as [bits [Hrun Hp]].
  { rewrite buffer_length_exact by lia. apply packed_init. nia. }
  destruct (packed_pixels dst x y bits Hx Hy Hp) as [Hpix _].
  pose proof Hp as (Hlen & _ & _).
  exists bits. split; [exact Hrun|]. split.
  - intros i j Hi Hj. eexists. split.
    + apply (PrintImg_bit_exact x y bits i j Hm Hfit Hi Hj Hlen).
    + rewrite (Hpix j i Hj Hi). destruct (is_black (dst j i)); [|reflexivity].
      assert (0 <= (j * y + i) mod 8 < 8) by (apply Z.mod_pos_bound; lia).
      assert (0 < 2 ^ (7 - (j * y + i) mod 8)) by (apply Z.pow_pos_nonneg; lia).
      apply negb_true_iff, Z.eqb_neq. lia.
  - rewrite (PrintImg_preview x y bits Hx Hy Hm Hfit Hlen).
    f_equal. apply preview_ext. intros col row Hc Hr. apply Hpix; assumption.
Qed.

(** C10. For positive [x] and [y] with [y] divisible by 8 and a pixel
    count within [int], every byte index computed by the packing loop and
    by the preview, [(col*y+row)/8], lies inside the buffer of [x*y/8]
    bytes; so the packing loop returns for every grid and [PrintImg]
    returns for every buffer of that length. *)
Theorem buffer_accesses_in_bounds (x y : Z) :
  0 < x -> 0 < y -> rem y 8 = 0 -> x * y <= MaxInt ->
  (forall col row, 0 <= col < x -> 0 <= row < y ->
     0 <= div (pixel_offset y col row) 8 < div (mul x y) 8)
  /\ (forall dst, exists bits,
        pack_loop dst x y (repeat 0 (Z.to_nat (div (mul x y) 8))) = ([], Ret bits))
  /\ (forall buf, Z.of_nat (List.length buf) = div (mul x y) 8 ->
        snd (PrintImg x y buf) = Ret tt).
Proof.
  intros Hx Hy Hy8 Hfit.
  assert (Hm : y mod 8 = 0) by (apply go_rem8_mod; [lia | exact Hy8]).
  rewrite buffer_length_exact by lia.
  split; [|split].
  - intros col row Hc Hr.
    destruct (pixel_offset_exact x y col row Hc Hr Hfit) as [Hoff Hrange].
    rewrite Hoff, div8_exact by lia.
    apply byte_index_in_bounds; assumption.
  - intros dst.
    destruct (pack_loop_correct dst x y (repeat 0 (Z.to_nat (x * y / 8))))
      as [bits [Hrun _]]; try lia; [apply packed_init; nia|].
    exists bits. exact Hrun.
  - intros buf Hlen. rewrite PrintImg_preview by lia. reflexivity.
Qed.

(* ================================================================= *)
(** ** [ParseRatio] *)

(** What [ParseRatio] accepts, as the code has it: the token splits into
    two fields and the first one is an integer. *)
Lemma ParseRatio_error_iff (rstr : string) :
  is_error (ParseRatio rstr) = true <->
  List.length (Split (ToLower rstr) "x") <> 2%nat
  \/ is_error (Atoi (nth 0 (Split (ToLower rstr) "x") EmptyString)) = true.
Proof.
  unfold ParseRatio.
  destruct (Nat.eqb_spec (List.length (Split (ToLower rstr) "x")) 2) as [E|E]; cbn [negb].
  - destruct (Atoi (nth 0 (Split (ToLower rstr) "x") EmptyString)); cbn.
    + split; [discriminate | intros [H|H]; [contradiction | discriminate]].
    + split; [intros _; now right | reflexivity].
  - cbn. split; [intros _; now left | reflexivity].
Qed.

(** Whatever it accepts, [ParseRatio] returns the first field twice. *)
Lemma ParseRatio_square (rstr : string) (x y : Z) :
  ParseRatio rstr = inl (x, y) -> x = y.
Proof.
  unfold ParseRatio.
  destruct (negb _); [discriminate|].
  destruct (Atoi _); [|discriminate].
  intros H. inversion H. reflexivity.
Qed.

(** C4. [ParseRatio "64x32"] returns [(64, 64)]: both coordinates come
    from the first field. *)
Theorem ParseRatio_64x32 : ParseRatio "64x32" = inl (64, 64).
Proof. reflexivity. Qed.

(** C5. [ParseRatio] does not return an error for every token whose second
    field is not an integer: ["64xabc"] is accepted as [(64, 64)], where
    the contract of the specification gives an error. ["abc"] and
    ["64"] are rejected, as the claim says. *)
Theorem ParseRatio_second_field_unchecked :
  ParseRatio "64xabc" = inl (64, 64)
  /\ Split (ToLower "64xabc") "x" = ["64"; "abc"]%string
  /\ is_error (Atoi "abc") = true
  /\ is_error (ParseRatio_spec "64xabc") = true
  /\ is_error (ParseRatio "abc") = true
  /\ is_error (ParseRatio "64") = true.
Proof. repeat split; reflexivity. Qed.

(* ================================================================= *)
(** ** Traces *)

Lemma bind_ret_l {A B} (a : A) (k : A -> M B) : bind (ret a) k = k a.
Proof. unfold bind, ret. destruct (k a); reflexivity. Qed.

Lemma bind_emit {B} (e : event) (k : unit -> M B) :
  bind (emit e) k = (e :: fst (k tt), snd (k tt)).
Proof. unfold bind, emit. destruct (k tt); reflexivity. Qed.

Lemma bind_trace {A B} (m : M A) (k : A -> M B) :
  fst (bind m k)
  = (fst m ++ match snd m with Ret a => fst (k a) | _ => [] end)%list.
Proof.
  destruct m as [t [a| |c]]; cbn; [|now rewrite app_nil_r..].
  destruct (k a); reflexivity.
Qed.

Lemma bind_outcome {A B} (m : M A) (k : A -> M B) :
  snd (bind m k)
  = match snd m with Ret a => snd (k a) | Panic => Panic | Exit c => Exit c end.
Proof. destruct m as [t [a| |c]]; cbn; [|reflexivity..]. destruct (k a); reflexivity. Qed.

Lemma forM_silent {X St} (body : X -> St -> M St) (l : list X) :
  (forall a s, fst (body a s) = []) -> forall s, fst (forM l body s) = [].
Proof.
  intros Hb. induction l as [|a l IH]; intros s; [reflexivity|].
  cbn [forM]. rewrite bind_trace, Hb. destruct (snd (body a s)); [apply IH|reflexivity..].
Qed.

Lemma pack_pixel_silent (dst : RGBAImage) (y i j : Z) (buf : list Z) :
  fst (pack_pixel dst y i j buf) = [].
Proof.
  unfold pack_pixel, load, store.
  destruct (is_black (dst i j)); [|reflexivity].
  destruct (_ && _); reflexivity.
Qed.

(** The packing loop prints nothing, whether it returns or panics. *)
Lemma pack_loop_silent (dst : RGBAImage) (x y : Z) (buf : list Z) :
  fst (pack_loop dst x y buf) = [].
Proof.
  unfold pack_loop, for_loop. apply forM_silent. intros i s.
  apply forM_silent. intros j s'. apply pack_pixel_silent.
Qed.

Lemma diagnostic_only_quiet (t : list event) :
  diagnostic_only t = true ->
  existsb is_output t = false /\ existsb is_ImgToBytes_call t = false.
Proof.
  unfold diagnostic_only. induction t as [|e t IH]; [now split|].
  cbn [forallb existsb]. intros H. apply andb_true_iff in H as [He Ht].
  destruct (IH Ht) as [-> ->]. destruct e; try discriminate He; now split.
Qed.

Lemma diagnostic_only_app (t1 t2 : list event) :
  diagnostic_only (t1 ++ t2) = diagnostic_only t1 && diagnostic_only t2.
Proof. apply forallb_app. Qed.

Lemma forM_no_exit {X St} (body : X -> St -> M St) (l : list X) :
  (forall a s c, snd (body a s) <> Exit c) ->
  forall s c, snd (forM l body s) <> Exit c.
Proof.
  intros Hb. induction l as [|a l IH]; intros s c; [discriminate|].
  cbn [forM]. rewrite bind_outcome.
  destruct (snd (body a s)) as [s'| |c'] eqn:E; [apply IH | discriminate |].
  exfalso. exact (Hb a s c' E).
Qed.

Lemma pack_loop_no_exit (dst : RGBAImage) (x y : Z) (buf : list Z) (c : Z) :
  snd (pack_loop dst x y buf) <> Exit c.
Proof.
  unfold pack_loop, for_loop. apply forM_no_exit. intros i s c'.
  apply forM_no_exit. intros j s' c''.
  unfold pack_pixel, load, store.
  destruct (is_black (dst i j)); [|discriminate].
  destruct (_ && _); discriminate.
Qed.

(* ================================================================= *)
(** ** [main] *)

Section MainProperties.

Variable Image : Type.
Variable Scale : Z -> Z -> RGBAImage -> Image -> RGBAImage.
Variable Dither : RGBAImage -> DitherResult.
Variable argv0 : string.
Variable os_Stat : string -> option error.
Variable os_Open : string -> option error.
Variable image_Decode : string -> Image + error.
Variable os_Create : string -> option error.
Variable file_Write : string -> list Z -> option error.
Variable base64_EncodeToString : list Z -> string.

Local Abbreviation run :=
  (main Scale Dither argv0 os_Stat os_Open image_Decode os_Create file_Write
        base64_EncodeToString).
Local Abbreviation output_switch :=
  (emit_output argv0 os_Create file_Write base64_EncodeToString).

(** [ImgToBytes] writes at most a log line, and leaves the process, if
    it does, with status 1. *)
Lemma ImgToBytes_outcomes (dd : bool) (x y : Z) (img : Image) :
  exists t o, ImgToBytes Scale Dither dd x y img = (t, o)
              /\ diagnostic_only t = true
              /\ match o with Exit c => c = 1 | _ => True end.
Proof.
  unfold ImgToBytes.
  assert (Hloop : forall dst buf,
             exists o, pack_loop dst x y buf = ([], o)
                       /\ match o with Exit c => c = 1 | _ => True end).
  { intros dst buf. pose proof (pack_loop_silent dst x y buf) as Hs.
    pose proof (pack_loop_no_exit dst x y buf) as Hn.
    destruct (pack_loop dst x y buf) as [t o]. cbn in Hs, Hn. subst t.
    exists o. split; [reflexivity|]. destruct o; auto. exfalso. now apply (Hn code). }
  unfold prepare, NewRGBA, make_bytes.
  destruct (_ <=? MaxInt); [|do 2 eexists; repeat split; reflexivity].
  destruct (_ <? 0); [do 2 eexists; repeat split; reflexivity|].
  run_go. destruct dd.
  - destruct (Hloop (Scale x y blank_image img)
                    (repeat 0 (Z.to_nat (div (mul x y) 8)))) as [o [E Ho]].
    run_go. rewrite E. exists [], o. repeat split; auto.
  - destruct (Dither (Scale x y blank_image img)) as [d|d|typ].
    + destruct (Hloop d (repeat 0 (Z.to_nat (div (mul x y) 8)))) as [o [E Ho]].
      run_go. rewrite E. exists [], o. repeat split; auto.
    + destruct (Hloop d (repeat 0 (Z.to_nat (div (mul x y) 8)))) as [o [E Ho]].
      run_go. rewrite E. exists [], o. repeat split; auto.
    + run_go. do 2 eexists. repeat split; reflexivity.
Qed.

(** The switch on the ratio either yields the resolved size, with a
    height divisible by 8, or leaves the process with status 1. *)
Lemma resolve_ratio_outcomes (r : string) :
  match resolved_size r with
  | Some (x, y) =>
      if rem y 8 =? 0
      then resolve_ratio argv0 r = ([], Ret (x, y))
      else resolve_ratio argv0 r
           = ([EvLog "error: height/y value must be divisible by 8"], Exit 1)
  | None => exists t, resolve_ratio argv0 r = (t, Exit 1) /\ diagnostic_only t = true
  end.
Proof.
  unfold resolved_size, resolve_ratio.
  destruct (String.eqb r "profile"); [reflexivity|].
  destruct (String.eqb r "splash"); [reflexivity|].
  destruct (String.eqb r ""); [eexists; split; reflexivity|].
  destruct (ParseRatio r) as [[x y]|e]; [|eexists; split; reflexivity].
  destruct (rem y 8 =? 0); reflexivity.
Qed.

(** Before it looks at the ratio, [main] has either left with status 1
    or loaded the image named by its single argument. *)
Lemma main_cases (fl : Flags) (args : list string) :
  (exists t, run fl args = (t, Exit 1) /\ diagnostic_only t = true)
  \/ (exists infile img,
        args = [infile]
        /\ run fl args
           = ('(x, y) <- resolve_ratio argv0 (ratio fl) ;;
              emit (EvImgToBytes x y) ;;
              imgBits <- ImgToBytes Scale Dither (disableDithering fl) x y img ;;
              output_switch fl imgBits ;;
              if show fl then PrintImg x y imgBits else ret tt)).
Proof.
  destruct args as [|infile [|b rest]].
  - left. eexists. split; reflexivity.
  - unfold main. cbn [List.length Nat.eqb negb nth].
    destruct (os_Stat infile) as [e|]; [left; eexists; split; reflexivity|].
    destruct (LoadImg os_Open image_Decode infile) as [img|e];
      [|left; eexists; split; reflexivity].
    right. exists infile, img. split; reflexivity.
  - left. eexists. split; reflexivity.
Qed.

Lemma emit_output_unknown (fl : Flags) (imgBits : list Z) :
  known_outmode (outMode fl) = false ->
  output_switch fl imgBits
  = (EvLog ("error: invalid outmode `" ++ outMode fl ++ "`" ++ nl ++ nl)
       :: fst (@Usage argv0 unit), Exit 1).
Proof.
  unfold known_outmode, emit_output. intros H.
  apply orb_false_iff in H as [H Hnone].
  apply orb_false_iff in H as [H Hb64].
  apply orb_false_iff in H as [Hrice Hbin].
  rewrite Hrice, Hbin, Hb64, Hnone. reflexivity.
Qed.

(** C6. The preset ["profile"] resolves to exactly [(120, 128)] and the
    preset ["splash"] to exactly [(246, 128)]: the switch of [main]
    returns these sizes, and a run that has loaded its image calls
    [ImgToBytes] with them. *)
Theorem presets_resolve :
  resolve_ratio argv0 "profile" = ([], Ret (120, 128))
  /\ resolve_ratio argv0 "splash" = ([], Ret (246, 128))
  /\ forall fl infile img,
       os_Stat infile = None ->
       LoadImg os_Open image_Decode infile = inl img ->
       (ratio fl = "profile"%string ->
        exists t o, run fl [infile] = (EvImgToBytes 120 128 :: t, o))
       /\ (ratio fl = "splash"%string ->
           exists t o, run fl [infile] = (EvImgToBytes 246 128 :: t, o)).
Proof.
  split; [reflexivity|]. split; [reflexivity|].
  intros fl infile img Hstat Hload.
  split; intros Hr; unfold main; cbn [List.length Nat.eqb negb nth];
    rewrite Hstat, Hload, Hr.
  - replace (resolve_ratio argv0 "profile") with (@ret (Z * Z) (120, 128))
      by reflexivity.
    rewrite bind_ret_l, bind_emit. do 2 eexists. reflexivity.
  - replace (resolve_ratio argv0 "splash") with (@ret (Z * Z) (246, 128))
      by reflexivity.
    rewrite bind_ret_l, bind_emit. do 2 eexists. reflexivity.
Qed.

(** C8. When the size resolved from the ratio has a height that is not
    divisible by 8, the run ends with exit status 1, without a call of
    [ImgToBytes] and without any file or standard output; a run that got
    as far as the check prints the height error and nothing else. *)
Theorem bad_height_rejected (fl : Flags) (args : list string) (x y : Z) :
  resolved_size (ratio fl) = Some (x, y) ->
  rem y 8 <> 0 ->
  exit_status (run fl args) = 1
  /\ existsb is_ImgToBytes_call (trace (run fl args)) = false
  /\ existsb is_output (trace (run fl args)) = false
  /\ (forall infile img,
        args = [infile] -> os_Stat infile = None ->
        LoadImg os_Open image_Decode infile = inl img ->
        run fl args
        = ([EvLog "error: height/y value must be divisible by 8"], Exit 1)).
Proof.
  intros Hsize Hy.
  pose proof (resolve_ratio_outcomes (ratio fl)) as Hres.
  rewrite Hsize in Hres.
  replace (rem y 8 =? 0) with false in Hres by (symmetry; now apply Z.eqb_neq).
  destruct (main_cases fl args) as [[t [Hrun Hdiag]] | (infile & img & Hargs & Hrun)].
  - rewrite Hrun. destruct (diagnostic_only_quiet t Hdiag) as [Hout Hcall].
    repeat split; try assumption.
    intros infile img -> Hstat Hload. revert Hrun Hdiag.
    unfold main. cbn [List.length Nat.eqb negb nth]. rewrite Hstat, Hload, Hres.
    run_go. intros Hrun _. symmetry. exact Hrun.
  - rewrite Hrun, Hres. run_go. repeat split.
Qed.

(** C9. For every outmode other than [rice], [bin], [base64] and [none]
    the run ends with a non-zero exit status and neither creates nor
    writes a file, nor prints on standard output; a run that reaches the
    switch on the outmode logs the invalid outmode, prints the usage and
    exits with status 1. *)
Theorem unknown_outmode_rejected (fl : Flags) (args : list string) :
  known_outmode (outMode fl) = false ->
  exit_status (run fl args) <> 0
  /\ existsb is_output (trace (run fl args)) = false
  /\ (forall infile img x y bits,
        args = [infile] -> os_Stat infile = None ->
        LoadImg os_Open image_Decode infile = inl img ->
        resolve_ratio argv0 (ratio fl) = ([], Ret (x, y)) ->
        ImgToBytes Scale Dither (disableDithering fl) x y img = ([], Ret bits) ->
        run fl args
        = (EvImgToBytes x y
             :: EvLog ("error: invalid outmode `" ++ outMode fl ++ "`" ++ nl ++ nl)
             :: fst (@Usage argv0 unit), Exit 1)).
Proof.
  intros Hmode. split; [|split].
  - destruct (main_cases fl args) as [[t [Hrun Hdiag]] | (infile & img & Hargs & Hrun)];
      rewrite Hrun; [discriminate|].
    pose proof (resolve_ratio_outcomes (ratio fl)) as Hres.
    destruct (resolved_size (ratio fl)) as [[x y]|].
    + destruct (rem y 8 =? 0); rewrite Hres; [|discriminate].
      destruct (ImgToBytes_outcomes (disableDithering fl) x y img)
        as (t & o & E & _ & Ho).
      run_go. rewrite E. destruct o as [bits| |c]; run_go.
      * rewrite emit_output_unknown by exact Hmode. discriminate.
      * discriminate.
      * lia.
    + destruct Hres as [t [-> _]]. discriminate.
  - destruct (main_cases fl args) as [[t [Hrun Hdiag]] | (infile & img & Hargs & Hrun)];
      rewrite Hrun; [apply diagnostic_only_quiet, Hdiag|].
    pose proof (resolve_ratio_outcomes (ratio fl)) as Hres.
    destruct (resolved_size (ratio fl)) as [[x y]|].
    + destruct (rem y 8 =? 0); rewrite Hres; [|reflexivity].
      destruct (ImgToBytes_outcomes (disableDithering fl) x y img)
        as (t & o & E & Hd & _).
      destruct (diagnostic_only_quiet t Hd) as [Hq _].
      run_go. rewrite E. destruct o as [bits| |c]; run_go.
      * rewrite emit_output_unknown by exact Hmode. run_go.
        cbn [existsb is_output orb].
        rewrite existsb_app, Hq. reflexivity.
      * cbn [existsb is_output orb]. exact Hq.
      * cbn [existsb is_output orb]. exact Hq.
    + destruct Hres as [t [-> Hd]]. run_go. apply diagnostic_only_quiet, Hd.
  - intros infile img x y bits -> Hstat Hload Hres Hbits.
    unfold main. cbn [List.length Nat.eqb negb nth].
    rewrite Hstat, Hload, Hres. run_go. rewrite Hbits. run_go.
    rewrite emit_output_unknown by exact Hmode. reflexivity.
Qed.

End MainProperties.

(* ================================================================= *)
(** ** The theorems at work on the concrete world *)

(** A 3 by 8 grid with a black diagonal packs to [128; 64; 32]. *)
Example ImgToBytes_diagonal :
  ImgToBytes Demo.Scale Demo.Dither false 3 8 Demo.diagonal = ([], Ret [128; 64; 32]).
Proof. reflexivity. Qed.

Lemma ImgToBytes_sets_exactly_black_bits_witness :
  (0 <= 3 /\ 0 <= 8 /\ rem 8 8 = 0
   /\ prepare Demo.Scale Demo.Dither false 3 8 Demo.diagonal
      = ([], Ret (Demo.diagonal, [0; 0; 0])))
  /\ exists bits,
      ImgToBytes Demo.Scale Demo.Dither false 3 8 Demo.diagonal = ([], Ret bits)
      /\ (forall col row, 0 <= col < 3 -> 0 <= row < 8 ->
            Z.testbit (nth (Z.to_nat ((col * 8 + row) / 8)) bits 0)
                      (7 - (col * 8 + row) mod 8)
            = is_black (Demo.diagonal col row))
      /\ (forall (k : nat) (b : Z), Z.testbit (nth k bits 0) b = true ->
            exists col row, 0 <= col < 3 /\ 0 <= row < 8
                            /\ is_black (Demo.diagonal col row) = true
                            /\ Z.of_nat k = (col * 8 + row) / 8
                            /\ b = 7 - (col * 8 + row) mod 8).
Proof.
  split; [repeat split; try lia; reflexivity|].
  apply (ImgToBytes_sets_exactly_black_bits Demo.Image Demo.Scale Demo.Dither
           false 3 8 Demo.diagonal [] Demo.diagonal [0; 0; 0]);
    [lia | lia | reflexivity | reflexivity].
Defined.



Lemma pack_then_preview_roundtrip_witness :
  exists bits,
    pack_loop Demo.diagonal 3 8 (repeat 0 (Z.to_nat (div (mul 3 8) 8))) = ([], Ret bits)
    /\ (forall i j, 0 <= i < 8 -> 0 <= j < 3 ->
          exists bit, PrintImg_bit 8 bits i j = ([], Ret bit)
                      /\ negb (bit =? 0) = is_black (Demo.diagonal j i))
    /\ PrintImg 3 8 bits
       = (preview (fun col row => is_black (Demo.diagonal col row)) 3 8, Ret tt).
Proof.
  apply (pack_then_preview_roundtrip Demo.diagonal 3 8).
  - lia.
  - lia.
  - reflexivity.
  - unfold MaxInt. lia.
Defined.

Lemma buffer_accesses_in_bounds_witness :
  (forall col row, 0 <= col < 3 -> 0 <= row < 8 ->
     0 <= div (pixel_offset 8 col row) 8 < div (mul 3 8) 8)
  /\ (forall dst, exists bits,
        pack_loop dst 3 8 (repeat 0 (Z.to_nat (div (mul 3 8) 8))) = ([], Ret bits))
  /\ (forall buf, Z.of_nat (List.length buf) = div (mul 3 8) 8 ->
        snd (PrintImg 3 8 buf) = Ret tt).
Proof.
  apply (buffer_accesses_in_bounds 3 8).
  - lia.
  - lia.
  - reflexivity.
  - unfold MaxInt. lia.
Defined.

Lemma presets_resolve_witness :
  resolve_ratio Demo.argv0 "profile" = ([], Ret (120, 128))
  /\ resolve_ratio Demo.argv0 "splash" = ([], Ret (246, 128))
  /\ exists t o, Demo.run (mkFlags true "none" false "profile") ["a.png"%string]
                 = (EvImgToBytes 120 128 :: t, o).
Proof.
  destruct (presets_resolve Demo.Image Demo.Scale Demo.Dither Demo.argv0 Demo.os_Stat
              Demo.os_Open Demo.image_Decode Demo.os_Create Demo.file_Write
              Demo.base64_EncodeToString) as (Hp & Hs & Hmain).
  split; [exact Hp|]. split; [exact Hs|].
  destruct (Hmain (mkFlags true "none" false "profile") "a.png"%string Demo.diagonal
                  eq_refl eq_refl) as [Hprofile _].
  exact (Hprofile eq_refl).
Defined.

Lemma bad_height_rejected_witness :
  (resolved_size "127x64" = Some (127, 127) /\ rem 127 8 <> 0)
  /\ Demo.run (mkFlags true "bin" true "127x64") ["a.png"%string]
     = ([EvLog "error: height/y value must be divisible by 8"], Exit 1).
Proof.
  assert (Hsize : resolved_size "127x64" = Some (127, 127)) by reflexivity.
  assert (Hrem : rem 127 8 <> 0) by (intros H; discriminate H).
  split; [split; assumption|].
  destruct (bad_height_rejected Demo.Image Demo.Scale Demo.Dither Demo.argv0
              Demo.os_Stat Demo.os_Open Demo.image_Decode Demo.os_Create
              Demo.file_Write Demo.base64_EncodeToString
              (mkFlags true "bin" true "127x64") ["a.png"%string] 127 127
              Hsize Hrem) as (_ & _ & _ & Hrun).
  exact (Hrun "a.png"%string Demo.diagonal eq_refl eq_refl eq_refl).
Defined.

Lemma unknown_outmode_rejected_witness :
  known_outmode "gif" = false
  /\ exit_status (Demo.run (mkFlags true "gif" true "16x8") ["a.png"%string]) <> 0
  /\ existsb is_output
       (trace (Demo.run (mkFlags true "gif" true "16x8") ["a.png"%string])) = false.
Proof.
  split; [reflexivity|].
  destruct (unknown_outmode_rejected Demo.Image Demo.Scale Demo.Dither Demo.argv0
              Demo.os_Stat Demo.os_Open Demo.image_Decode Demo.os_Create
              Demo.file_Write Demo.base64_EncodeToString
              (mkFlags true "gif" true "16x8") ["a.png"%string] eq_refl)
    as (Hexit & Hquiet & _).
  split; assumption.
Defined.

(* ================================================================= *)
(** ** More on [ParseRatio] *)

Lemma lower_ascii_idem (c : ascii) : lower_ascii (lower_ascii c) = lower_ascii c.
Proof.
  destruct c as [b0 b1 b2 b3 b4 b5 b6 b7].
  destruct b0, b1, b2, b3, b4, b5, b6, b7; reflexivity.
Qed.

Lemma ToLower_idem (s : string) : ToLower (ToLower s) = ToLower s.
Proof. induction s as [|c s IH]; cbn; [reflexivity | now rewrite lower_ascii_idem, IH]. Qed.

Lemma ToLower_app (a b : string) :
  ToLower (a ++ b) = (ToLower a ++ ToLower b)%string.
Proof. induction a as [|c a IH]; cbn; [reflexivity | now rewrite IH]. Qed.

(** [Split] yields one field more than there are separators. *)
Lemma Split_length (s : string) (sep : ascii) :
  List.length (Split s sep) = S (count_char sep s).
Proof.
  induction s as [|c s IH]; [reflexivity|].
  cbn [Split count_char]. destruct (Ascii.eqb c sep).
  - cbn. now rewrite IH.
  - destruct (Split s sep) as [|f fs]; cbn in *; lia.
Qed.

Lemma Split_no_sep (s : string) (sep : ascii) :
  count_char sep s = O -> Split s sep = [s].
Proof.
  induction s as [|c s IH]; [reflexivity|].
  cbn [Split count_char]. destruct (Ascii.eqb c sep); [discriminate|].
  intros H. now rewrite IH.
Qed.

Lemma Split_app_sep (a b : string) (sep : ascii) :
  count_char sep a = O ->
  Split (a ++ String sep b) sep = a :: Split b sep.
Proof.
  induction a as [|c a IH]; cbn [String.append Split count_char].
  - intros _. now rewrite Ascii.eqb_refl.
  - destruct (Ascii.eqb c sep); [discriminate|]. intros H. now rewrite IH.
Qed.

Lemma parse_uint_bounds (fn orig s : string) :
  forall acc n, 0 <= acc <= 2 ^ 64 - 1 -> parse_uint fn orig s acc = inl n ->
                0 <= n <= 2 ^ 64 - 1.
Proof.
  induction s as [|c s IH]; intros acc n Hacc; cbn [parse_uint].
  - intros H. inversion H. subst. exact Hacc.
  - destruct (digit_val c) as [d|] eqn:Hd; [|discriminate].
    assert (Hd0 : 0 <= d).
    { unfold digit_val in Hd. destruct (_ && _)%N eqn:E; [|discriminate].
      apply andb_true_iff in E as [E _]. apply N.leb_le in E.
      inversion Hd. lia. }
    destruct (Z.ltb_spec (2 ^ 64 - 1) (10 * acc + d)); [discriminate|].
    apply IH. lia.
Qed.

(** What [Atoi] returns is an [int]. *)
Lemma Atoi_in_int (s : string) (n : Z) : Atoi s = inl n -> in_int n.
Proof.
  unfold Atoi, in_int, MinInt, MaxInt. destruct s as [|c s]; [discriminate|].
  destruct (if Ascii.eqb c "-" then (true, s)
            else if Ascii.eqb c "+" then (false, s) else (false, String c s))
    as [neg digits].
  destruct digits as [|c' s']; [discriminate|].
  destruct (parse_uint "Atoi" (String c s) (String c' s') 0) as [m|e] eqn:E;
    [|discriminate].
  apply parse_uint_bounds in E; [|lia].
  destruct neg.
  - destruct (Z.ltb_spec (2 ^ 63) m); [discriminate|]. intros Hn. inversion Hn. lia.
  - destruct (Z.leb_spec (2 ^ 63) m); [discriminate|]. intros Hn. inversion Hn. lia.
Qed.

(** X1. A token is refused as an invalid ratio string exactly when, once
    lowered, it does not hold exactly one [x]. *)
Theorem ParseRatio_invalid_iff_not_one_x (rstr : string) :
  ParseRatio rstr = inr (ErrNew "invalid ratio string provided")
  <-> count_char "x" (ToLower rstr) <> 1%nat.
Proof.
  unfold ParseRatio. rewrite Split_length.
  destruct (Nat.eqb_spec (S (count_char "x" (ToLower rstr))) 2) as [E|E]; cbn [negb].
  - split; [|lia].
    destruct (Atoi _); discriminate.
  - split; [lia | reflexivity].
Qed.

(** X2. Every size that [ParseRatio] returns is a square of a side within
    [int], and the token it came from holds exactly one [x] once
    lowered. *)
Theorem ParseRatio_accepts_squares (rstr : string) (x y : Z) :
  ParseRatio rstr = inl (x, y) ->
  x = y /\ in_int x /\ count_char "x" (ToLower rstr) = 1%nat.
Proof.
  unfold ParseRatio. rewrite Split_length.
  destruct (Nat.eqb_spec (S (count_char "x" (ToLower rstr))) 2) as [E|E]; cbn [negb];
    [|discriminate].
  destruct (Atoi (nth 0 (Split (ToLower rstr) "x") EmptyString)) as [n|e] eqn:Ha;
    [|discriminate].
  intros H. inversion H. subst.
  split; [reflexivity|]. split; [exact (Atoi_in_int _ _ Ha) | lia].
Qed.


Lemma is_digit_cases (d : Z) :
  is_digit d ->
  d = 0 \/ d = 1 \/ d = 2 \/ d = 3 \/ d = 4 \/ d = 5 \/ d = 6 \/ d = 7 \/ d = 8 \/ d = 9.
Proof. unfold is_digit. lia. Qed.

Ltac each_digit H :=
  apply is_digit_cases in H;
  repeat (destruct H as [H|H]; [subst|]); subst.

Lemma digit_val_char (d : Z) : is_digit d -> digit_val (digit_char d) = Some d.
Proof. intros H. each_digit H; reflexivity. Qed.

Lemma lower_digit_char (d : Z) : is_digit d -> lower_ascii (digit_char d) = digit_char d.
Proof. intros H. each_digit H; reflexivity. Qed.

Lemma digit_char_plain (d : Z) :
  is_digit d ->
  Ascii.eqb (digit_char d) "-" = false /\ Ascii.eqb (digit_char d) "+" = false
  /\ Ascii.eqb (digit_char d) "x" = false.
Proof. intros H. each_digit H; repeat split; reflexivity. Qed.

Lemma ToLower_digit_string (ds : list Z) :
  Forall is_digit ds -> ToLower (digit_string ds) = digit_string ds.
Proof.
  unfold digit_string. induction 1 as [|d ds Hd _ IH]; [reflexivity|].
  cbn. now rewrite lower_digit_char, IH.
Qed.

Lemma digit_string_no_x (ds : list Z) :
  Forall is_digit ds -> count_char "x" (digit_string ds) = O.
Proof.
  unfold digit_string. induction 1 as [|d ds Hd _ IH]; [reflexivity|].
  cbn. destruct (digit_char_plain d Hd) as (_ & _ & ->). exact IH.
Qed.

Lemma decimal_fold_ge (ds : list Z) :
  Forall is_digit ds ->
  forall acc, 0 <= acc -> acc <= fold_left (fun a d => 10 * a + d) ds acc.
Proof.
  induction 1 as [|d ds Hd _ IH]; intros acc Hacc; cbn [fold_left]; [lia|].
  unfold is_digit in Hd. specialize (IH (10 * acc + d) ltac:(lia)). lia.
Qed.

Lemma parse_uint_digits (fn orig : string) (ds : list Z) :
  Forall is_digit ds ->
  forall acc, 0 <= acc ->
              fold_left (fun a d => 10 * a + d) ds acc <= 2 ^ 64 - 1 ->
              parse_uint fn orig (digit_string ds) acc
              = inl (fold_left (fun a d => 10 * a + d) ds acc).
Proof.
  unfold digit_string.
  induction 1 as [|d ds Hd Hds IH]; intros acc Hacc Hfit; [reflexivity|].
  cbn [map string_of_list_ascii parse_uint fold_left] in *.
  rewrite digit_val_char by exact Hd.
  pose proof Hd as Hd'. unfold is_digit in Hd'.
  pose proof (decimal_fold_ge ds Hds (10 * acc + d) ltac:(lia)) as Hge.
  destruct (Z.ltb_spec (2 ^ 64 - 1) (10 * acc + d)); [lia|].
  apply IH; lia.
Qed.

(** A numeral without sign parses to the number it denotes. *)
Lemma Atoi_digits (ds : list Z) :
  ds <> [] -> Forall is_digit ds -> decimal_value ds <= MaxInt ->
  Atoi (digit_string ds) = inl (decimal_value ds).
Proof.
  intros Hne Hds Hfit. destruct ds as [|d ds]; [contradiction|].
  pose proof (parse_uint_digits "Atoi" (digit_string (d :: ds)) (d :: ds) Hds 0
                ltac:(lia)) as Hp.
  fold (decimal_value (d :: ds)) in Hp.
  unfold MaxInt in Hfit.
  specialize (Hp ltac:(lia)).
  inversion Hds as [|d' ds' Hd Hds']. subst.
  destruct (digit_char_plain d Hd) as (Hminus & Hplus & _).
  unfold Atoi. change (digit_string (d :: ds))
    with (String (digit_char d) (digit_string ds)) in *.
  cbv beta iota. rewrite Hminus, Hplus. cbv beta iota. rewrite Hp.
  destruct (Z.leb_spec (2 ^ 63) (decimal_value (d :: ds))); [lia | reflexivity].
Qed.

(** X4. A token made of a decimal numeral within [int], an [x] and any
    rest without [x] is accepted, and both sides of the size are the
    number in front of the [x]: the rest is never parsed. *)
Theorem ParseRatio_reads_first_field_only (ds : list Z) (rest : string) :
  ds <> [] -> Forall is_digit ds -> decimal_value ds <= MaxInt ->
  count_char "x" (ToLower rest) = O ->
  ParseRatio (digit_string ds ++ "x" ++ rest)
  = inl (decimal_value ds, decimal_value ds).
Proof.
  intros Hne Hds Hfit Hrest. unfold ParseRatio.
  rewrite !ToLower_app, ToLower_digit_string by exact Hds.
  change (ToLower "x") with "x"%string.
  change ("x" ++ ToLower rest)%string with (String "x"%char (ToLower rest)).
  rewrite Split_app_sep by (apply digit_string_no_x, Hds).
  rewrite Split_no_sep by exact Hrest.
  cbn [List.length Nat.eqb negb nth].
  now rewrite Atoi_digits.
Qed.

Lemma ParseRatio_reads_first_field_only_witness :
  ParseRatio "246xsplash" = inl (246, 246).
Proof.
  apply (ParseRatio_reads_first_field_only [2; 4; 6] "splash").
  - discriminate.
  - repeat constructor; unfold is_digit; lia.
  - unfold MaxInt. cbn. lia.
  - reflexivity.
Defined.

(* ================================================================= *)
(** ** The file writers *)

Lemma bytes_of_string_app (a b : string) :
  bytes_of_string (a ++ b) = (bytes_of_string a ++ bytes_of_string b)%list.
Proof.
  unfold bytes_of_string. induction a as [|c a IH]; [reflexivity|].
  cbn. now rewrite IH.
Qed.

Lemma written_writes (f : string) (ds : list (list Z)) (t : list event) :
  written f (map (EvWrite f) ds ++ t) = (ds ++ written f t)%list.
Proof.
  induction ds as [|d ds IH]; [reflexivity|].
  cbn. now rewrite String.eqb_refl, IH.
Qed.

Section Writers.

Variable argv0 : string.
Variable os_Create : string -> option error.
Variable file_Write : string -> list Z -> option error.

Local Abbreviation stops := (stops_at_first_failure file_Write).

Lemma stops_nil (f : string) : stops f [] None.
Proof. left. split; [constructor | reflexivity]. Qed.

Lemma stops_failed (f : string) (d : list Z) (e : error) :
  file_Write f d = Some e -> stops f [d] (Some e).
Proof.
  intros H. right. exists [], d, e. repeat split; [constructor | exact H].
Qed.

Lemma stops_cons (f : string) (d : list Z) (ds : list (list Z)) (err : option error) :
  file_Write f d = None -> stops f ds err -> stops f (d :: ds) err.
Proof.
  intros Hd [[Hall ->] | (ds' & d' & e & -> & Hall & Hfail & ->)].
  - left. split; [constructor; assumption | reflexivity].
  - right. exists (d :: ds'), d', e. repeat split; [constructor|]; assumption.
Qed.

(** The loop over the entries stops at the first failed write. *)
Lemma write_entries_stops (f : string) (imageBits : list Z) :
  forall i, exists ds err,
    write_entries file_Write f i imageBits = (map (EvWrite f) ds, Ret err)
    /\ stops f ds err.
Proof.
  induction imageBits as [|b rest IH]; intros i.
  - exists [], None. split; [reflexivity | apply stops_nil].
  - cbn [write_entries]. unfold Write_to.
    destruct (IH (add i 1)) as (ds & err & Hrun & Hstops).
    destruct (rem i 32 =? 0).
    + destruct (file_Write f (bytes_of_string (nl ++ tab))) as [e|] eqn:E1.
      * exists [bytes_of_string (nl ++ tab)], (Some e). run_go.
        split; [reflexivity | now apply stops_failed].
      * destruct (file_Write f (bytes_of_string (hex_entry b))) as [e|] eqn:E2.
        -- exists [bytes_of_string (nl ++ tab); bytes_of_string (hex_entry b)], (Some e).
           run_go. split; [reflexivity|].
           apply stops_cons; [exact E1 | now apply stops_failed].
        -- exists (bytes_of_string (nl ++ tab) :: bytes_of_string (hex_entry b) :: ds), err.
           run_go. rewrite Hrun. split; [reflexivity|].
           repeat apply stops_cons; assumption.
    + destruct (file_Write f (bytes_of_string (hex_entry b))) as [e|] eqn:E2.
      * exists [bytes_of_string (hex_entry b)], (Some e). run_go.
        split; [reflexivity | now apply stops_failed].
      * exists (bytes_of_string (hex_entry b) :: ds), err.
        run_go. rewrite Hrun. split; [reflexivity|].
        apply stops_cons; assumption.
Qed.

Lemma stops_app (f : string) (ds1 ds2 : list (list Z)) (err : option error) :
  Forall (fun d => file_Write f d = None) ds1 -> stops f ds2 err ->
  stops f (ds1 ++ ds2) err.
Proof.
  induction 1 as [|d ds1 Hd _ IH]; intros H; [exact H|].
  cbn. apply stops_cons; [exact Hd | apply IH, H].
Qed.

(** What [WriteToGoFile] does once the file is created. *)
Lemma WriteToGoFile_created (filename variablename : string) (imageBits : list Z) :
  os_Create filename = None ->
  exists ds err,
    WriteToGoFile argv0 os_Create file_Write filename variablename imageBits
    = (EvCreate filename :: map (EvWrite filename) ds ++ [EvClose filename], Ret err)
    /\ ds <> [] /\ stops filename ds err.
Proof.
  intros Hc. unfold WriteToGoFile, Write_to. rewrite Hc.
  set (header := bytes_of_string _).
  destruct (write_entries_stops filename imageBits 0) as (ds & err & Hrun & Hstops).
  destruct (file_Write filename header) as [e|] eqn:E1.
  - exists [header], (Some e). run_go.
    split; [reflexivity|]. split; [discriminate | now apply stops_failed].
  - run_go. rewrite Hrun. destruct err as [e|].
    + exists (header :: ds), (Some e). run_go.
      split; [now rewrite app_nil_r|]. split; [discriminate | now apply stops_cons].
    + set (footer := bytes_of_string _).
      exists (header :: ds ++ [footer]), (file_Write filename footer). run_go.
      split; [cbn [map]; now rewrite map_app|]. split; [discriminate|].
      apply stops_cons; [exact E1|].
      destruct Hstops as [[Hall _] | (ds' & d & e & _ & _ & _ & Habs)];
        [|discriminate Habs].
      apply stops_app; [exact Hall|].
      destruct (file_Write filename footer) as [e|] eqn:E3;
        [now apply stops_failed|].
      left. split; [repeat constructor; exact E3 | reflexivity].
Qed.


End Writers.

Lemma string_app_assoc (a b c : string) : ((a ++ b) ++ c = a ++ (b ++ c))%string.
Proof. induction a as [|x a IH]; cbn; [reflexivity | now rewrite IH]. Qed.

Lemma string_length_app (a b : string) :
  String.length (a ++ b) = (String.length a + String.length b)%nat.
Proof. induction a as [|x a IH]; cbn; [reflexivity | now rewrite IH]. Qed.

(** The sixteen hexadecimal digits and the 256 entries, by enumeration. *)
Lemma hex_entry_shape (b : Z) :
  is_byte b ->
  exists h l, hex_entry b = String "0" (String "x" (String h (String l ", ")))
              /\ hex_val h = Some (b / 16) /\ hex_val l = Some (b mod 16).
Proof.
  intros Hb.
  assert (Hall : forallb
                   (fun b =>
                      match String.get 2 (hex_entry b), String.get 3 (hex_entry b) with
                      | Some h, Some l =>
                          String.eqb (hex_entry b)
                                     (String "0" (String "x" (String h (String l ", "))))
                          && match hex_val h, hex_val l with
                             | Some vh, Some vl => (vh =? b / 16) && (vl =? b mod 16)
                             | _, _ => false
                             end
                      | _, _ => false
                      end) (count_up 256) = true) by (vm_compute; reflexivity).
  rewrite forallb_forall in Hall.
  specialize (Hall b (proj2 (in_count_up 256 b) Hb)). cbv beta in Hall.
  destruct (String.get 2 (hex_entry b)) as [h|]; [|discriminate Hall].
  destruct (String.get 3 (hex_entry b)) as [l|]; [|discriminate Hall].
  apply andb_true_iff in Hall as [Heq Hval]. apply String.eqb_eq in Heq.
  destruct (hex_val h) as [vh|] eqn:Eh; [|discriminate Hval].
  destruct (hex_val l) as [vl|] eqn:El; [|discriminate Hval].
  apply andb_true_iff in Hval as [H1 H2]. apply Z.eqb_eq in H1, H2. subst vh vl.
  exists h, l. split; [exact Heq | split; assumption].
Qed.

(** X6. Every byte is written as [0x], two upper-case hexadecimal digits,
    a comma and a space, and the two digits read back as the byte. *)
Theorem hex_entry_round_trip (b : Z) :
  is_byte b ->
  exists h l vh vl,
    hex_entry b = String "0" (String "x" (String h (String l ", ")))
    /\ hex_val h = Some vh /\ hex_val l = Some vl /\ 16 * vh + vl = b.
Proof.
  intros Hb. destruct (hex_entry_shape b Hb) as (h & l & Heq & Hh & Hl).
  exists h, l, (b / 16), (b mod 16). repeat split; try assumption.
  pose proof (Z.div_mod b 16 ltac:(lia)). lia.
Qed.

Lemma hex_entry_length (b : Z) : is_byte b -> String.length (hex_entry b) = 6%nat.
Proof.
  intros Hb. destruct (hex_entry_shape b Hb) as (h & l & -> & _). reflexivity.
Qed.

Lemma go_entries_length_from (imageBits : list Z) :
  Forall is_byte imageBits ->
  forall i, 0 <= i ->
    Z.of_nat (String.length (go_entries i imageBits))
    = 6 * Z.of_nat (List.length imageBits)
      + 2 * ((i + Z.of_nat (List.length imageBits) + 31) / 32 - (i + 31) / 32).
Proof.
  induction 1 as [|b rest Hb _ IH]; intros i Hi.
  - cbn [go_entries List.length String.length]. rewrite Z.add_0_r. lia.
  - cbn [go_entries List.length]. rewrite !string_length_app, hex_entry_length by exact Hb.
    rewrite !Nat2Z.inj_add, IH by lia. rewrite Nat2Z.inj_succ.
    destruct (Z.eqb_spec (i mod 32) 0) as [E|E]; cbn [String.length String.append nl tab];
      Z.to_euclidean_division_equations; lia.
Qed.


Section GoFile.

Variable argv0 : string.
Variable os_Create : string -> option error.
Variable file_Write : string -> list Z -> option error.

Lemma write_entries_content (f : string) (imageBits : list Z) :
  (forall d, file_Write f d = None) ->
  forall i, 0 <= i -> i + Z.of_nat (List.length imageBits) <= MaxInt ->
    exists ds,
      write_entries file_Write f i imageBits = (map (EvWrite f) ds, Ret None)
      /\ List.concat ds = bytes_of_string (go_entries i imageBits).
Proof.
  intros Hw. induction imageBits as [|b rest IH]; intros i Hi Hfit.
  - exists []. split; reflexivity.
  - cbn [List.length] in Hfit. rewrite Nat2Z.inj_succ in Hfit.
    destruct (IH (i + 1)) as (ds & Hrun & Hcat); [lia | lia |].
    cbn [write_entries go_entries]. unfold Write_to.
    assert (Hadd : add i 1 = i + 1).
    { unfold add. apply wrap_int_small. unfold in_int, MinInt.
      rewrite MaxInt_value in *. lia. }
    unfold rem. rewrite Z.rem_mod_nonneg, Hadd by lia.
    rewrite !bytes_of_string_app.
    destruct (i mod 32 =? 0).
    + exists (bytes_of_string (nl ++ tab) :: bytes_of_string (hex_entry b) :: ds).
      rewrite !Hw. run_go. rewrite Hrun. split; [reflexivity|].
      cbn [List.concat]. now rewrite Hcat, bytes_of_string_app.
    + exists (bytes_of_string (hex_entry b) :: ds).
      rewrite !Hw. run_go. rewrite Hrun. split; [reflexivity|].
      cbn [List.concat]. now rewrite Hcat.
Qed.

Lemma WriteToGoFile_succeeds (filename variablename : string) (imageBits : list Z) :
  os_Create filename = None ->
  (forall d, file_Write filename d = None) ->
  Z.of_nat (List.length imageBits) <= MaxInt ->
  exists ds,
    WriteToGoFile argv0 os_Create file_Write filename variablename imageBits
    = (EvCreate filename :: map (EvWrite filename) ds ++ [EvClose filename], Ret None)
    /\ file_content filename
         (EvCreate filename :: map (EvWrite filename) ds ++ [EvClose filename])
       = bytes_of_string (go_file argv0 variablename imageBits).
Proof.
  intros Hc Hw Hfit.
  destruct (write_entries_content filename imageBits Hw 0 ltac:(lia) ltac:(lia))
    as (ds & Hrun & Hcat).
  unfold WriteToGoFile, Write_to. rewrite Hc, !Hw. run_go. rewrite Hrun. run_go.
  set (header := bytes_of_string _). set (footer := bytes_of_string _).
  exists (header :: ds ++ [footer]). split.
  - cbn [map]. now rewrite map_app.
  - unfold file_content. cbn [written]. rewrite written_writes. cbn [written].
    rewrite app_nil_r. cbn [List.concat]. rewrite concat_app, Hcat. cbn [List.concat].
    rewrite app_nil_r. subst header footer. unfold go_file.
    rewrite <- !bytes_of_string_app. f_equal.
    now rewrite !string_app_assoc.
Qed.

(** X8. On a disk that takes every write, [WriteToGoFile] creates the
    file, writes it and closes it, returns nil, and the file holds the
    header comment, the package clause and the byte-array literal named
    [r] followed by the variable name, with the entries laid out 32 to a
    line. *)
Theorem WriteToGoFile_content (filename variablename : string) (imageBits : list Z) :
  os_Create filename = None ->
  (forall d, file_Write filename d = None) ->
  Z.of_nat (List.length imageBits) <= MaxInt ->
  exists ds,
    WriteToGoFile argv0 os_Create file_Write filename variablename imageBits
    = (EvCreate filename :: map (EvWrite filename) ds ++ [EvClose filename], Ret None)
    /\ file_content filename
         (EvCreate filename :: map (EvWrite filename) ds ++ [EvClose filename])
       = bytes_of_string (go_file argv0 variablename imageBits).
Proof. exact (WriteToGoFile_succeeds filename variablename imageBits). Qed.

End GoFile.

(* ================================================================= *)
(** ** More on the packer *)

(** A loop that returns has returned from every iteration. *)
Lemma forM_returns {X St} (P : St -> Prop) (Q : X -> Prop)
      (body : X -> St -> M St) (l : list X) :
  (forall a s t s', In a l -> P s -> body a s = (t, Ret s') -> P s' /\ Q a) ->
  forall s t s', P s -> forM l body s = (t, Ret s') -> P s' /\ Forall Q l.
Proof.
  induction l as [|a l IH]; intros Hb s t s' Hs Hrun.
  - inversion Hrun. subst. split; [exact Hs | constructor].
  - cbn [forM] in Hrun.
    destruct (body a s) as [t1 [s1| |c]] eqn:E; cbn [bind] in Hrun;
      try discriminate Hrun.
    destruct (forM l body s1) as [t2 o2] eqn:E2. inversion Hrun. subst.
    destruct (Hb a s t1 s1 (or_introl eq_refl) Hs E) as [Hs1 Hq].
    destruct (IH (fun a' s0 t0 s0' Hin => Hb a' s0 t0 s0' (or_intror Hin))
                 s1 t2 s' Hs1 E2) as [Hs' Hall].
    split; [exact Hs' | constructor; assumption].
Qed.

Lemma pack_pixel_returns (dst : RGBAImage) (y i j : Z) (buf buf' : list Z) t :
  pack_pixel dst y i j buf = (t, Ret buf') ->
  List.length buf' = List.length buf
  /\ (is_black (dst i j) = true ->
      0 <= div (pixel_offset y i j) 8 < Z.of_nat (List.length buf)).
Proof.
  unfold pack_pixel, load, store.
  destruct (is_black (dst i j)).
  - destruct (_ && _) eqn:E; run_go; intros H; [|discriminate H].
    inversion H. rewrite length_set_nth. split; [reflexivity|]. intros _.
    apply andb_true_iff in E as [E1 E2]. apply Z.leb_le in E1. apply Z.ltb_lt in E2.
    lia.
  - intros H. inversion H. split; [reflexivity | discriminate].
Qed.

Lemma pack_column_returns (dst : RGBAImage) (y i : Z) (buf buf' : list Z) t :
  forM (count_up y) (fun j bits' => pack_pixel dst y i j bits') buf = (t, Ret buf') ->
  List.length buf' = List.length buf
  /\ forall j, 0 <= j < y -> is_black (dst i j) = true ->
               0 <= div (pixel_offset y i j) 8 < Z.of_nat (List.length buf).
Proof.
  intros Hrun.
  destruct (forM_returns
              (fun b => List.length b = List.length buf)
              (fun j => is_black (dst i j) = true ->
                        0 <= div (pixel_offset y i j) 8 < Z.of_nat (List.length buf))
              (fun j bits' => pack_pixel dst y i j bits') (count_up y))
    with (s := buf) (t := t) (s' := buf') as [Hlen Hall].
  - intros j s2 t2 s3 _ Hs2 Hpix.
    destruct (pack_pixel_returns _ _ _ _ _ _ _ Hpix) as [Hl Hk].
    split; [congruence | rewrite <- Hs2; exact Hk].
  - reflexivity.
  - exact Hrun.
  - split; [exact Hlen|]. intros j Hj. rewrite Forall_forall in Hall.
    apply Hall, in_count_up, Hj.
Qed.

(** The packing loop returns only if the byte of every black pixel lies
    inside the buffer. *)
Lemma pack_loop_returns (dst : RGBAImage) (x y : Z) (buf buf' : list Z) t :
  pack_loop dst x y buf = (t, Ret buf') ->
  forall col row, 0 <= col < x -> 0 <= row < y -> is_black (dst col row) = true ->
                  0 <= div (pixel_offset y col row) 8 < Z.of_nat (List.length buf).
Proof.
  unfold pack_loop, for_loop. intros Hrun.
  destruct (forM_returns
              (fun b => List.length b = List.length buf)
              (fun i => forall j, 0 <= j < y -> is_black (dst i j) = true ->
                                  0 <= div (pixel_offset y i j) 8
                                  < Z.of_nat (List.length buf))
              (fun i bits =>
                 forM (count_up y) (fun j bits' => pack_pixel dst y i j bits') bits)
              (count_up x))
    with (s := buf) (t := t) (s' := buf') as [_ Hall].
  - intros i s t1 s1 _ Hs Hinner.
    destruct (pack_column_returns dst y i s s1 t1 Hinner) as [Hl Hk].
    split; [congruence | rewrite <- Hs; exact Hk].
  - reflexivity.
  - exact Hrun.
  - intros col row Hc Hr. rewrite Forall_forall in Hall.
    apply (Hall col (proj2 (in_count_up x col) Hc) row Hr).
Qed.

Lemma byte_all_ones (v : Z) :
  is_byte v -> (forall b, 0 <= b < 8 -> Z.testbit v b = true) -> v = 255.
Proof.
  intros Hv Hbits. apply Z.bits_inj'. intros n Hn.
  change 255 with (Z.ones 8). rewrite Z.testbit_ones_nonneg by lia.
  destruct (Z.ltb_spec n 8).
  - apply Hbits. lia.
  - apply byte_high_bits; [exact Hv | lia].
Qed.

Section PackerEdges.

Variable Image : Type.
Variable Scale : Z -> Z -> RGBAImage -> Image -> RGBAImage.
Variable Dither : RGBAImage -> DitherResult.

(** X9. A grid that is black everywhere packs to [x*y/8] bytes [0xFF];
    the zeroed pixels of a fresh RGBA image, transparent as they are,
    count as black. *)
Theorem all_black_packs_to_ones
        (dd : bool) (x y : Z) (img : Image) t (dst : RGBAImage) buf0 :
  0 <= x -> 0 <= y -> rem y 8 = 0 ->
  prepare Scale Dither dd x y img = (t, Ret (dst, buf0)) ->
  (forall col row, 0 <= col < x -> 0 <= row < y -> is_black (dst col row) = true) ->
  ImgToBytes Scale Dither dd x y img = ([], Ret (repeat 255 (Z.to_nat (x * y / 8))))
  /\ forall col row, is_black (blank_image col row) = true.
Proof.
  intros Hx Hy Hy8 Hprep Hblack. split; [|reflexivity].
  destruct (ImgToBytes_packed Image Scale Dither dd x y img t dst buf0
              Hx Hy Hy8 Hprep) as [bits [Hrun (Hlen & Hbytes & Hbits)]].
  rewrite Hrun. do 2 f_equal.
  apply (nth_ext _ _ 0 255); [rewrite repeat_length; lia|].
  intros k Hk. rewrite nth_repeat.
  apply byte_all_ones; [apply Forall_nth_byte, Hbytes|].
  intros b Hb.
  assert (Hle : 8 * (x * y / 8) <= x * y) by (apply Z.mul_div_le; lia).
  set (p := 8 * Z.of_nat k + (7 - b)).
  assert (Hp : 0 <= p < x * y) by (unfold p; lia).
  assert (Hq : p / 8 = Z.of_nat k).
  { unfold p. rewrite Z.add_comm, Z.mul_comm, Z.div_add by lia.
    rewrite Z.div_small by lia. lia. }
  assert (Hr : p mod 8 = 7 - b).
  { unfold p. rewrite Z.add_comm, Z.mul_comm, Z.mod_add by lia.
    apply Z.mod_small. lia. }
  assert (Hypos : 0 < y) by nia.
  specialize (Hbits p Hp). unfold get_bit in Hbits.
  rewrite Hq, Hr, Nat2Z.id in Hbits. replace (7 - (7 - b)) with b in Hbits by lia.
  rewrite Hbits.
  replace (p <? x * y) with true by (symmetry; apply Z.ltb_lt; lia).
  apply Hblack.
  - split; [apply Z.div_pos; lia | apply Z.div_lt_upper_bound; lia].
  - apply Z.mod_pos_bound. exact Hypos.
Qed.

(** X10. Without the check on the height the packer is not safe: when a
    black pixel has its byte index [(col*y+row)/8] at or beyond [x*y/8],
    which needs a pixel count that is no multiple of 8, [ImgToBytes]
    panics on the index and returns nothing. *)
Theorem ImgToBytes_panics_outside_buffer
        (dd : bool) (x y : Z) (img : Image) t (dst : RGBAImage) buf0 (col row : Z) :
  0 <= x -> 0 <= y ->
  prepare Scale Dither dd x y img = (t, Ret (dst, buf0)) ->
  0 <= col < x -> 0 <= row < y -> is_black (dst col row) = true ->
  x * y / 8 <= (col * y + row) / 8 ->
  ImgToBytes Scale Dither dd x y img = ([], Panic).
Proof.
  intros Hx Hy Hprep Hc Hr Hblack Hout.
  destruct (prepare_inv Image Scale Dither _ _ _ _ _ _ _ Hprep)
    as (-> & Hfit & Hlen & -> & _).
  rewrite !Z.abs_eq in Hfit by lia.
  assert (Hxy : x * y <= MaxInt) by nia.
  unfold ImgToBytes. rewrite Hprep. run_go.
  pose proof (pack_loop_silent dst x y (repeat 0 (Z.to_nat (div (mul x y) 8)))) as Hs.
  pose proof (pack_loop_no_exit dst x y (repeat 0 (Z.to_nat (div (mul x y) 8)))) as Hn.
  destruct (pack_loop dst x y (repeat 0 (Z.to_nat (div (mul x y) 8))))
    as [t' [bits| |c]] eqn:E; cbn [fst snd] in Hs, Hn; subst t'.
  - exfalso.
    pose proof (pack_loop_returns _ _ _ _ _ _ E col row Hc Hr Hblack) as Hk.
    destruct (pixel_offset_exact x y col row Hc Hr Hxy) as [Hoff Hrange].
    rewrite Hoff, div8_exact, repeat_length in Hk by lia.
    rewrite buffer_length_exact in Hk by lia.
    assert (0 <= x * y / 8) by (apply Z.div_pos; nia). lia.
  - reflexivity.
  - exfalso. exact (Hn c eq_refl).
Qed.

(** X11. For the two presets the packer never fails: whatever the image,
    and with a ditherer that returns an RGBA image, [ImgToBytes] returns
    1920 bytes for [profile] (120 by 128) and 3936 bytes for [splash]
    (246 by 128). *)
Theorem presets_pack (dd : bool) (img : Image) :
  (dd = false -> dither_returns_RGBA Image Scale Dither 120 128 img) ->
  (dd = false -> dither_returns_RGBA Image Scale Dither 246 128 img) ->
  (exists bits, ImgToBytes Scale Dither dd 120 128 img = ([], Ret bits)
                /\ List.length bits = 1920%nat)
  /\ (exists bits, ImgToBytes Scale Dither dd 246 128 img = ([], Ret bits)
                   /\ List.length bits = 3936%nat).
Proof.
  intros Hp Hs. split.
  - destruct (prepare_total Image Scale Dither dd 120 128 img) as [dst Hprep];
      [lia | lia | unfold MaxInt; lia | exact Hp |].
    destruct (ImgToBytes_packed Image Scale Dither dd 120 128 img _ _ _
                ltac:(lia) ltac:(lia) eq_refl Hprep) as [bits [Hrun (Hlen & _)]].
    exists bits. split; [exact Hrun|].
    change (120 * 128 / 8) with 1920 in Hlen. lia.
  - destruct (prepare_total Image Scale Dither dd 246 128 img) as [dst Hprep];
      [lia | lia | unfold MaxInt; lia | exact Hs |].
    destruct (ImgToBytes_packed Image Scale Dither dd 246 128 img _ _ _
                ltac:(lia) ltac:(lia) eq_refl Hprep) as [bits [Hrun (Hlen & _)]].
    exists bits. split; [exact Hrun|].
    change (246 * 128 / 8) with 3936 in Hlen. lia.
Qed.

End PackerEdges.

(* ================================================================= *)
(** ** More on the preview *)

Lemma forM_trace_forallb {X St} (p : event -> bool)
      (body : X -> St -> M St) (l : list X) :
  (forall a s, forallb p (fst (body a s)) = true) ->
  forall s, forallb p (fst (forM l body s)) = true.
Proof.
  intros Hb. induction l as [|a l IH]; intros s; [reflexivity|].
  cbn [forM]. rewrite bind_trace, forallb_app, Hb.
  destruct (snd (body a s)); [apply IH | reflexivity..].
Qed.

Lemma PrintImg_bit_outcomes (y : Z) (buf : list Z) (i j : Z) :
  (exists bit, PrintImg_bit y buf i j = ([], Ret bit)
               /\ 0 <= div (pixel_offset y j i) 8 < Z.of_nat (List.length buf))
  \/ PrintImg_bit y buf i j = ([], Panic).
Proof.
  unfold PrintImg_bit, load.
  destruct (_ && _) eqn:E; [left | right; reflexivity].
  eexists. split; [reflexivity|].
  apply andb_true_iff in E as [E1 E2]. apply Z.leb_le in E1. apply Z.ltb_lt in E2. lia.
Qed.

Lemma PrintImg_stderr_no_exit (x y : Z) (buf : list Z) :
  forallb is_stderr (fst (PrintImg x y buf)) = true
  /\ forall c, snd (PrintImg x y buf) <> Exit c.
Proof.
  unfold PrintImg, for_loop. split.
  - apply forM_trace_forallb. intros i []. rewrite bind_trace, forallb_app.
    rewrite forM_trace_forallb.
    + destruct (snd _); reflexivity.
    + intros j []. destruct (PrintImg_bit_outcomes y buf i j) as [[bit [-> _]] | ->];
        reflexivity.
  - apply forM_no_exit. intros i [] c. rewrite bind_outcome.
    destruct (snd (forM (count_up x) _ tt)) as [[]| |c'] eqn:E;
      [discriminate | discriminate |].
    exfalso. revert E. apply forM_no_exit. intros j [] c''.
    destruct (PrintImg_bit_outcomes y buf i j) as [[bit [-> _]] | ->]; discriminate.
Qed.

(** X12. Whatever the buffer, [PrintImg] talks on the diagnostic stream
    only and never ends the process itself: it returns or it panics on
    an index. *)
Theorem PrintImg_only_stderr (x y : Z) (buf : list Z) :
  forallb is_stderr (fst (PrintImg x y buf)) = true
  /\ forall c, snd (PrintImg x y buf) <> Exit c.
Proof. exact (PrintImg_stderr_no_exit x y buf). Qed.

(** X13. [PrintImg] returns only when the buffer covers every pixel: if
    it returns, the byte [(col*y+row)/8] of every pixel of the grid lies
    inside the buffer. *)
Theorem PrintImg_returns_only_in_bounds (x y : Z) (buf : list Z) t :
  0 <= x -> 0 <= y -> x * y <= MaxInt ->
  PrintImg x y buf = (t, Ret tt) ->
  forall col row, 0 <= col < x -> 0 <= row < y ->
                  (col * y + row) / 8 < Z.of_nat (List.length buf).
Proof.
  intros Hx Hy Hfit Hrun col row Hc Hr.
  unfold PrintImg, for_loop in Hrun.
  destruct (forM_returns
              (fun _ : unit => True)
              (fun i => forall j, 0 <= j < x ->
                                  0 <= div (pixel_offset y j i) 8
                                  < Z.of_nat (List.length buf))
              (fun i _ =>
                 for_loop x
                   (fun j _ => bit <- PrintImg_bit y buf i j ;; emit (EvStderr (glyph bit)))
                   tt ;;
                 emit (EvStderr nl))
              (count_up y))
    with (s := tt) (t := t) (s' := tt) as [_ Hall].
  - intros i [] t1 [] _ _ Hline. split; [exact I|].
    unfold for_loop in Hline.
    destruct (forM (count_up x)
                   (fun j _ => bit <- PrintImg_bit y buf i j ;; emit (EvStderr (glyph bit)))
                   tt) as [t2 [[]| |c]] eqn:E; cbn [bind] in Hline;
      try discriminate Hline.
    destruct (forM_returns
                (fun _ : unit => True)
                (fun j => 0 <= div (pixel_offset y j i) 8 < Z.of_nat (List.length buf))
                (fun j _ => bit <- PrintImg_bit y buf i j ;; emit (EvStderr (glyph bit)))
                (count_up x))
      with (s := tt) (t := t2) (s' := tt) as [_ Hcols].
    + intros j [] t3 [] _ _ Hbit. split; [exact I|].
      destruct (PrintImg_bit_outcomes y buf i j) as [[bit [Hb Hk]] | Hb];
        [exact Hk|].
      rewrite Hb in Hbit. discriminate Hbit.
    + exact I.
    + exact E.
    + intros j Hj. rewrite Forall_forall in Hcols. apply Hcols, in_count_up, Hj.
  - exact I.
  - exact Hrun.
  - rewrite Forall_forall in Hall.
    pose proof (Hall row (proj2 (in_count_up y row) Hr) col Hc) as Hk.
    destruct (pixel_offset_exact x y col row Hc Hr Hfit) as [Hoff Hrange].
    rewrite Hoff, div8_exact in Hk by lia. lia.
Qed.

(* ================================================================= *)
(** ** More on [main] *)

Lemma diagnostic_only_no_files (t : list event) :
  diagnostic_only t = true -> existsb is_file_event t = false.
Proof.
  unfold diagnostic_only. induction t as [|e t IH]; [reflexivity|].
  cbn [forallb existsb]. intros H. apply andb_true_iff in H as [He Ht].
  rewrite (IH Ht). destruct e; try discriminate He; reflexivity.
Qed.

Lemma stderr_only_quiet (t : list event) :
  forallb is_stderr t = true ->
  existsb is_output t = false /\ existsb is_file_event t = false.
Proof.
  induction t as [|e t IH]; [now split|].
  cbn [forallb existsb]. intros H. apply andb_true_iff in H as [He Ht].
  destruct (IH Ht) as [-> ->]. destruct e; try discriminate He; now split.
Qed.

Lemma bind_silent_ret {A B} (a : A) (k : A -> M B) : bind ([], Ret a) k = k a.
Proof. exact (bind_ret_l a k). Qed.

Section MainModes.

Variable Image : Type.
Variable Scale : Z -> Z -> RGBAImage -> Image -> RGBAImage.
Variable Dither : RGBAImage -> DitherResult.
Variable argv0 : string.
Variable os_Stat : string -> option error.
Variable os_Open : string -> option error.
Variable image_Decode : string -> Image + error.
Variable os_Create : string -> option error.
Variable file_Write : string -> list Z -> option error.
Variable base64_EncodeToString : list Z -> string.

Local Abbreviation run :=
  (main Scale Dither argv0 os_Stat os_Open image_Decode os_Create file_Write
        base64_EncodeToString).
Local Abbreviation output_switch :=
  (emit_output argv0 os_Create file_Write base64_EncodeToString).

(** [ImgToBytes] either returns in silence or fails. *)
Lemma ImgToBytes_returns_or_fails (dd : bool) (x y : Z) (img : Image) :
  (exists bits, ImgToBytes Scale Dither dd x y img = ([], Ret bits))
  \/ (exists t o, ImgToBytes Scale Dither dd x y img = (t, o)
                  /\ diagnostic_only t = true /\ (o = Panic \/ o = Exit 1)).
Proof.
  assert (Hloop : forall dst buf,
             (exists bits, pack_loop dst x y buf = ([], Ret bits))
             \/ pack_loop dst x y buf = ([], Panic)).
  { intros dst buf. pose proof (pack_loop_silent dst x y buf) as Hs.
    pose proof (pack_loop_no_exit dst x y buf) as Hn.
    destruct (pack_loop dst x y buf) as [t [bits| |c]]; cbn in Hs, Hn; subst t.
    - left. now exists bits.
    - now right.
    - exfalso. now apply (Hn c). }
  assert (Hfrom : forall dst buf,
             (exists bits, ('(d, b) <- ret (dst, buf) ;; pack_loop d x y b)
                           = ([], Ret bits))
             \/ (exists t o, ('(d, b) <- ret (dst, buf) ;; pack_loop d x y b) = (t, o)
                             /\ diagnostic_only t = true /\ (o = Panic \/ o = Exit 1))).
  { intros dst buf. rewrite bind_ret_l.
    destruct (Hloop dst buf) as [[bits ->] | ->].
    - left. now exists bits.
    - right. exists [], Panic. repeat split. now left. }
  unfold ImgToBytes, prepare, NewRGBA, make_bytes.
  destruct (_ <=? MaxInt);
    [|right; exists [], Panic; repeat split; now left].
  destruct (_ <? 0);
    [right; exists [], Panic; repeat split; now left|].
  rewrite !bind_ret_l. destruct dd; [apply Hfrom|].
  destruct (Dither (Scale x y blank_image img)) as [d|d|typ]; [apply Hfrom..|].
  right. do 2 eexists. split; [reflexivity|]. split; [reflexivity | now right].
Qed.

(** The three ways a run of [main] can go: it stops before the packer,
    the packer fails, or the packer returns and the output switch and the
    preview follow. *)
Lemma main_shape (fl : Flags) (args : list string) :
  (exists t, run fl args = (t, Exit 1) /\ diagnostic_only t = true)
  \/ (exists x y t o, run fl args = (EvImgToBytes x y :: t, o)
                      /\ diagnostic_only t = true /\ (o = Panic \/ o = Exit 1))
  \/ (exists img x y bits,
        resolve_ratio argv0 (ratio fl) = ([], Ret (x, y))
        /\ rem y 8 = 0
        /\ ImgToBytes Scale Dither (disableDithering fl) x y img = ([], Ret bits)
        /\ run fl args
           = (EvImgToBytes x y
                :: fst (output_switch fl bits ;;
                        if show fl then PrintImg x y bits else ret tt),
              snd (output_switch fl bits ;;
                   if show fl then PrintImg x y bits else ret tt))).
Proof.
  destruct (main_cases Image Scale Dither argv0 os_Stat os_Open image_Decode
              os_Create file_Write base64_EncodeToString fl args)
    as [Hstop | (infile & img & Hargs & Hrun)]; [now left|].
  pose proof (resolve_ratio_outcomes argv0 (ratio fl)) as Hres.
  destruct (resolved_size (ratio fl)) as [[x y]|].
  - destruct (Z.eqb_spec (rem y 8) 0) as [Hy8|Hy8].
    + destruct (ImgToBytes_returns_or_fails (disableDithering fl) x y img)
        as [[bits Hbits] | (t & o & Hfail & Hd & Ho)].
      * right. right. exists img, x, y, bits.
        split; [exact Hres|]. split; [exact Hy8|]. split; [exact Hbits|].
        rewrite Hrun, Hres, bind_silent_ret, bind_emit, Hbits, bind_silent_ret.
        reflexivity.
      * right. left. rewrite Hrun, Hres, bind_silent_ret, bind_emit, Hfail.
        destruct Ho as [-> | ->].
        -- exists x, y, t, Panic. split; [reflexivity|]. split; [exact Hd | now left].
        -- exists x, y, t, (Exit 1). split; [reflexivity|]. split; [exact Hd | now right].
    + left. eexists. rewrite Hrun, Hres. split; reflexivity.
  - left. destruct Hres as [t [Hr Hd]]. exists t. rewrite Hrun, Hr. split; [reflexivity | exact Hd].
Qed.

Lemma emit_output_none (fl : Flags) (imgBits : list Z) :
  outMode fl = "none"%string -> output_switch fl imgBits = ret tt.
Proof. intros H. unfold emit_output. rewrite H. reflexivity. Qed.

Lemma emit_output_base64 (fl : Flags) (imgBits : list Z) :
  outMode fl = "base64"%string ->
  output_switch fl imgBits
  = emit (EvStdout (EncodeToString base64_EncodeToString imgBits ++ nl)).
Proof. intros H. unfold emit_output. rewrite H. reflexivity. Qed.

Lemma emit_output_bin (fl : Flags) (imgBits : list Z) :
  outMode fl = "bin"%string ->
  output_switch fl imgBits
  = (err <- WriteToBinFile os_Create file_Write (ratio fl ++ ".bin") imgBits ;;
     match err with
     | Some e => emit (EvLogErr "error writing image to file: " e) ;; os_Exit 1
     | None => ret tt
     end).
Proof. intros H. unfold emit_output. rewrite H. reflexivity. Qed.

Lemma emit_output_rice (fl : Flags) (imgBits : list Z) :
  outMode fl = "rice"%string ->
  output_switch fl imgBits
  = (err <- WriteToGoFile argv0 os_Create file_Write
              (ratio fl ++ "-generated.go") (ratio fl) imgBits ;;
     match err with
     | Some e => emit (EvLogErr "error writing image to file: " e) ;; os_Exit 1
     | None => ret tt
     end).
Proof. intros H. unfold emit_output. rewrite H. reflexivity. Qed.

Lemma filter_output_diagnostic (t : list event) :
  diagnostic_only t = true -> filter is_output t = [].
Proof.
  unfold diagnostic_only. induction t as [|e t IH]; [reflexivity|].
  cbn [forallb filter]. intros H. apply andb_true_iff in H as [He Ht].
  rewrite (IH Ht). destruct e; try discriminate He; reflexivity.
Qed.

Lemma filter_output_stderr (t : list event) :
  forallb is_stderr t = true -> filter is_output t = [].
Proof.
  induction t as [|e t IH]; [reflexivity|].
  cbn [forallb filter]. intros H. apply andb_true_iff in H as [He Ht].
  rewrite (IH Ht). destruct e; try discriminate He; reflexivity.
Qed.

(** The output events of what follows the output switch. *)
Lemma preview_tail_quiet (fl : Flags) (x y : Z) (bits : list Z) :
  filter is_output (fst (if show fl then PrintImg x y bits else ret tt)) = [].
Proof.
  destruct (show fl); [|reflexivity].
  apply filter_output_stderr, PrintImg_stderr_no_exit.
Qed.

(** X14. With the outmode [none] no run creates, writes or closes a file
    or prints on standard output, whatever else happens. *)
Theorem none_mode_no_output (fl : Flags) (args : list string) :
  outMode fl = "none"%string ->
  filter is_output (trace (run fl args)) = [].
Proof.
  intros Hmode.
  destruct (main_shape fl args)
    as [(t & -> & Hd) | [(x & y & t & o & -> & Hd & _)
                        | (img & x & y & bits & _ & _ & _ & ->)]]; unfold trace; cbn [fst].
  - now apply filter_output_diagnostic.
  - cbn [filter is_output]. now apply filter_output_diagnostic.
  - rewrite emit_output_none, bind_ret_l by exact Hmode.
    cbn [filter is_output]. apply preview_tail_quiet.
Qed.



Lemma wrap_int_range (z : Z) : in_int (wrap_int z).
Proof.
  unfold in_int, wrap_int, MinInt, MaxInt.
  pose proof (Z.mod_pos_bound (z + 2 ^ 63) (2 ^ 64) ltac:(lia)). lia.
Qed.

Lemma pack_loop_length (dst : RGBAImage) (x y : Z) (buf buf' : list Z) t :
  pack_loop dst x y buf = (t, Ret buf') -> List.length buf' = List.length buf.
Proof.
  unfold pack_loop, for_loop. intros Hrun.
  destruct (forM_returns
              (fun b => List.length b = List.length buf) (fun _ => True)
              (fun i bits =>
                 forM (count_up y) (fun j bits' => pack_pixel dst y i j bits') bits)
              (count_up x))
    with (s := buf) (t := t) (s' := buf') as [Hlen _].
  - intros i s t1 s1 _ Hs Hinner.
    destruct (pack_column_returns dst y i s s1 t1 Hinner) as [Hl _].
    split; [congruence | exact I].
  - reflexivity.
  - exact Hrun.
  - exact Hlen.
Qed.

Lemma ImgToBytes_returns_quotient
      (dd : bool) (x y : Z) (img : Image) t (bits : list Z) :
  ImgToBytes Scale Dither dd x y img = (t, Ret bits) ->
  t = [] /\ Z.of_nat (List.length bits) = div (mul x y) 8
  /\ 0 <= div (mul x y) 8 <= MaxInt.
Proof.
  unfold ImgToBytes.
  destruct (prepare Scale Dither dd x y img) as [tp [[dst buf0]| |c]] eqn:Hp;
    cbn [bind]; try discriminate.
  destruct (prepare_inv Image Scale Dither _ _ _ _ _ _ _ Hp) as (-> & _ & Hlen & -> & _).
  pose proof (pack_loop_silent dst x y (repeat 0 (Z.to_nat (div (mul x y) 8)))) as Hs.
  destruct (pack_loop dst x y (repeat 0 (Z.to_nat (div (mul x y) 8))))
    as [t' o] eqn:E. cbn [fst] in Hs. subst t'.
  intros H. inversion H. subst.
  apply pack_loop_length in E. rewrite repeat_length in E.
  split; [reflexivity|]. split; [lia|]. split; [exact Hlen|].
  apply (wrap_int_range (Z.quot (mul x y) 8)).
Qed.

(** X17. Whenever [ImgToBytes] returns, for any size at all, it has
    printed nothing and its buffer has as many bytes as Go's [x*y/8], a
    number between 0 and the largest [int]. *)
Theorem ImgToBytes_returned_length
        (dd : bool) (x y : Z) (img : Image) t (bits : list Z) :
  ImgToBytes Scale Dither dd x y img = (t, Ret bits) ->
  t = [] /\ Z.of_nat (List.length bits) = div (mul x y) 8
  /\ 0 <= div (mul x y) 8 <= MaxInt.
Proof. exact (ImgToBytes_returns_quotient dd x y img t bits). Qed.

Lemma written_app (f : string) (t1 t2 : list event) :
  written f (t1 ++ t2) = (written f t1 ++ written f t2)%list.
Proof.
  induction t1 as [|e t1 IH]; [reflexivity|].
  destruct e; cbn [app written]; try exact IH.
  destruct (String.eqb name f); cbn; now rewrite IH.
Qed.

Lemma written_stderr (f : string) (t : list event) :
  forallb is_stderr t = true -> written f t = [].
Proof.
  induction t as [|e t IH]; [reflexivity|].
  cbn [forallb]. intros H. apply andb_true_iff in H as [He Ht].
  destruct e; try discriminate He. cbn [written]. exact (IH Ht).
Qed.


Lemma bind_prefix {A B} (p : event -> bool) (m : M A) (k1 k2 : A -> M B) :
  (forall a, exists tp, fst (k1 a) = (fst (k2 a) ++ tp)%list /\ forallb p tp = true) ->
  exists tp, fst (bind m k1) = (fst (bind m k2) ++ tp)%list /\ forallb p tp = true.
Proof.
  intros H. rewrite !bind_trace. destruct (snd m) as [a| |c].
  - destruct (H a) as [tp [-> Hp]]. exists tp.
    split; [now rewrite app_assoc | exact Hp].
  - exists []. split; [now rewrite !app_nil_r | reflexivity].
  - exists []. split; [now rewrite !app_nil_r | reflexivity].
Qed.

(** X19. The preview only adds to a run: with [-show] the trace is the
    trace of the same run without it, followed by lines on the diagnostic
    stream; files and standard output are the same. *)
Theorem preview_only_appends (dd : bool) (om r : string) (args : list string) :
  exists tp,
    trace (run (mkFlags dd om true r) args)
    = (trace (run (mkFlags dd om false r) args) ++ tp)%list
    /\ forallb is_stderr tp = true.
Proof.
  unfold trace, main. cbn [disableDithering outMode show ratio].
  destruct (negb _); [exists []; split; [now rewrite app_nil_r | reflexivity]|].
  destruct (os_Stat _); [exists []; split; [now rewrite app_nil_r | reflexivity]|].
  destruct (LoadImg _ _ _) as [img|e];
    [|exists []; split; [now rewrite app_nil_r | reflexivity]].
  apply bind_prefix. intros [x y].
  apply bind_prefix. intros _.
  apply bind_prefix. intros bits.
  unfold emit_output. cbn [outMode ratio].
  apply bind_prefix. intros _.
  exists (fst (PrintImg x y bits)). split; [reflexivity|].
  apply PrintImg_stderr_no_exit.
Qed.

Lemma emit_output_outcomes (fl : Flags) (imgBits : list Z) :
  snd (output_switch fl imgBits) = Ret tt \/ snd (output_switch fl imgBits) = Exit 1.
Proof.
  unfold emit_output.
  destruct (String.eqb (outMode fl) "rice").
  - rewrite bind_outcome.
    destruct (os_Create (ratio fl ++ "-generated.go")) as [e|] eqn:Hc.
    + unfold WriteToGoFile. rewrite Hc. now right.
    + destruct (WriteToGoFile_created argv0 os_Create file_Write
                  (ratio fl ++ "-generated.go") (ratio fl) imgBits Hc)
        as (ds & err & -> & _).
      destruct err; [now right | now left].
  - destruct (String.eqb (outMode fl) "bin").
    + rewrite bind_outcome. unfold WriteToBinFile, Write_to.
      destruct (os_Create (ratio fl ++ ".bin")); [now right|].
      destruct (file_Write (ratio fl ++ ".bin") imgBits); [now right | now left].
    + destruct (String.eqb (outMode fl) "base64"); [now left|].
      destruct (String.eqb (outMode fl) "none"); [now left | now right].
Qed.


Lemma bind_exits_loudly {A B} (m : M A) (k : A -> M B) :
  exits_loudly m -> (forall a, exits_loudly (k a)) -> exits_loudly (bind m k).
Proof.
  unfold exits_loudly. intros Hm Hk c. rewrite bind_outcome, bind_trace, existsb_app.
  destruct (snd m) as [a| |c'] eqn:E.
  - intros H. destruct (Hk a c H) as [-> ->]. now rewrite orb_true_r.
  - discriminate.
  - intros H. inversion H. subst. destruct (Hm c eq_refl) as [-> ->]. now split.
Qed.

Lemma returns_exits_loudly {A} (m : M A) :
  (forall c, snd m <> Exit c) -> exits_loudly m.
Proof. intros H c Hc. exfalso. exact (H c Hc). Qed.

Lemma Usage_after_log {T} (e : event) :
  is_log e = true -> exits_loudly (emit e ;; @Usage argv0 T).
Proof. intros He c Hc. cbn in *. inversion Hc. now rewrite He. Qed.

Lemma ImgToBytes_exits_loudly (dd : bool) (x y : Z) (img : Image) :
  exits_loudly (ImgToBytes Scale Dither dd x y img).
Proof.
  unfold ImgToBytes. apply bind_exits_loudly.
  - unfold prepare, NewRGBA, make_bytes.
    destruct (_ <=? MaxInt); [|apply returns_exits_loudly; discriminate].
    destruct (_ <? 0); [apply returns_exits_loudly; discriminate|].
    rewrite !bind_ret_l. destruct dd; [apply returns_exits_loudly; discriminate|].
    destruct (Dither _); [apply returns_exits_loudly; discriminate..|].
    intros c Hc. cbn in *. inversion Hc. now split.
  - intros [dst buf]. apply returns_exits_loudly, pack_loop_no_exit.
Qed.

Lemma written_file_exits_loudly (w : M (option error)) :
  (exists t err, w = (t, Ret err)) ->
  exits_loudly (err <- w ;;
                match err with
                | Some e => emit (EvLogErr "error writing image to file: " e) ;;
                            os_Exit 1
                | None => ret tt
                end).
Proof.
  intros (t & err & ->). apply bind_exits_loudly.
  - apply returns_exits_loudly. discriminate.
  - intros [e|]; [|apply returns_exits_loudly; discriminate].
    intros c Hc. cbn in *. inversion Hc. now split.
Qed.

Lemma emit_output_exits_loudly (fl : Flags) (imgBits : list Z) :
  exits_loudly (output_switch fl imgBits).
Proof.
  unfold emit_output.
  destruct (String.eqb (outMode fl) "rice").
  - apply written_file_exits_loudly.
    destruct (os_Create (ratio fl ++ "-generated.go")) as [e|] eqn:Hc.
    + unfold WriteToGoFile. rewrite Hc. do 2 eexists. reflexivity.
    + destruct (WriteToGoFile_created argv0 os_Create file_Write
                  (ratio fl ++ "-generated.go") (ratio fl) imgBits Hc)
        as (ds & err & -> & _).
      do 2 eexists. reflexivity.
  - destruct (String.eqb (outMode fl) "bin").
    + apply written_file_exits_loudly. unfold WriteToBinFile, Write_to.
      destruct (os_Create (ratio fl ++ ".bin")); do 2 eexists; reflexivity.
    + destruct (String.eqb (outMode fl) "base64");
        [apply returns_exits_loudly; discriminate|].
      destruct (String.eqb (outMode fl) "none");
        [apply returns_exits_loudly; discriminate|].
      apply (@Usage_after_log unit). reflexivity.
Qed.


End MainModes.

(* ================================================================= *)
(** ** The further properties at work on the concrete world *)

Lemma ParseRatio_accepts_squares_witness :
  ParseRatio "16x8" = inl (16, 16)
  /\ 16 = 16 /\ in_int 16 /\ count_char "x" (ToLower "16x8") = 1%nat.
Proof.
  split; [reflexivity|].
  apply (ParseRatio_accepts_squares "16x8" 16 16). reflexivity.
Defined.


Lemma hex_entry_round_trip_witness :
  exists h l vh vl,
    hex_entry 171 = String "0" (String "x" (String h (String l ", ")))
    /\ hex_val h = Some vh /\ hex_val l = Some vl /\ 16 * vh + vl = 171.
Proof. apply (hex_entry_round_trip 171). unfold is_byte. lia. Defined.


Lemma WriteToGoFile_content_witness :
  exists ds,
    WriteToGoFile Demo.argv0 Demo.os_Create Demo.file_Write "f.go" "v" [0; 255]
    = (EvCreate "f.go" :: map (EvWrite "f.go") ds ++ [EvClose "f.go"], Ret None)
    /\ file_content "f.go" (EvCreate "f.go" :: map (EvWrite "f.go") ds ++ [EvClose "f.go"])
       = bytes_of_string (go_file Demo.argv0 "v" [0; 255]).
Proof.
  apply (WriteToGoFile_content Demo.argv0 Demo.os_Create Demo.file_Write
           "f.go" "v" [0; 255]).
  - reflexivity.
  - intros d. reflexivity.
  - unfold MaxInt. cbn [List.length]. lia.
Defined.

Lemma all_black_packs_to_ones_witness :
  ImgToBytes Demo.Scale Demo.Dither true 2 8 DemoIO.all_black
  = ([], Ret (repeat 255 (Z.to_nat (2 * 8 / 8))))
  /\ forall col row, is_black (blank_image col row) = true.
Proof.
  apply (all_black_packs_to_ones Demo.Image Demo.Scale Demo.Dither true 2 8
           DemoIO.all_black [] DemoIO.all_black [0; 0]).
  - lia.
  - lia.
  - reflexivity.
  - reflexivity.
  - intros col row _ _. reflexivity.
Defined.

Lemma ImgToBytes_panics_outside_buffer_witness :
  ImgToBytes Demo.Scale Demo.Dither true 1 4 DemoIO.all_black = ([], Panic).
Proof.
  apply (ImgToBytes_panics_outside_buffer Demo.Image Demo.Scale Demo.Dither true 1 4
           DemoIO.all_black [] DemoIO.all_black [] 0 0).
  - lia.
  - lia.
  - reflexivity.
  - lia.
  - lia.
  - reflexivity.
  - discriminate.
Defined.

Lemma presets_pack_witness :
  (exists bits, ImgToBytes Demo.Scale Demo.Dither false 120 128 Demo.diagonal
                = ([], Ret bits) /\ List.length bits = 1920%nat)
  /\ (exists bits, ImgToBytes Demo.Scale Demo.Dither false 246 128 Demo.diagonal
                   = ([], Ret bits) /\ List.length bits = 3936%nat).
Proof.
  apply (presets_pack Demo.Image Demo.Scale Demo.Dither false Demo.diagonal).
  - intros _ typ H. discriminate H.
  - intros _ typ H. discriminate H.
Defined.

Lemma PrintImg_returns_only_in_bounds_witness :
  (2 * 8 + 7) / 8 < Z.of_nat (List.length [128; 64; 32]).
Proof.
  apply (PrintImg_returns_only_in_bounds 3 8 [128; 64; 32]
           (fst (PrintImg 3 8 [128; 64; 32]))).
  - lia.
  - lia.
  - unfold MaxInt. lia.
  - reflexivity.
  - lia.
  - lia.
Defined.

Lemma none_mode_no_output_witness :
  filter is_output (trace (Demo.run (mkFlags false "none" true "16x8") ["a.png"%string]))
  = [].
Proof.
  apply (none_mode_no_output Demo.Image Demo.Scale Demo.Dither Demo.argv0 Demo.os_Stat
           Demo.os_Open Demo.image_Decode Demo.os_Create Demo.file_Write
           Demo.base64_EncodeToString (mkFlags false "none" true "16x8")).
  reflexivity.
Defined.



Lemma ImgToBytes_returned_length_witness :
  @nil event = [] /\ Z.of_nat (List.length [128; 64; 32]) = div (mul 3 8) 8
  /\ 0 <= div (mul 3 8) 8 <= MaxInt.
Proof.
  apply (ImgToBytes_returned_length Demo.Image Demo.Scale Demo.Dither false 3 8
           Demo.diagonal [] [128; 64; 32]).
  reflexivity.
Defined.


